(** * Pentaract UI: the upload store and the progress-reporting upload request

    A shallow embedding of [ui/src/stores/uploadStore.js], of
    [apiMultipartRequestWithProgress] (the [api] module) and of the close
    button of [ui/src/components/UploadProgress.jsx], followed by the
    properties of the upload life cycle checked against them. *)

From Stdlib Require Import List String Ascii Bool ZArith NArith QArith Qround Qpower Lia Lqa.
From Stdlib Require Import Decimal DecimalString DecimalZ.
Import ListNotations.
Close Scope Q_scope.
Open Scope string_scope.

(** ** JavaScript values *)

(** A JavaScript [number], as the rational it holds: enough for the
    literals [0] and [100], for byte counts and for their quotients.  [NaN]
    and the infinities are outside the model. *)
Definition number : Type := Q.
Bind Scope Q_scope with number.

(** [Math.round]: the nearest integer, halves rounded up. *)
Definition Math_round (x : number) : number := inject_Z (Qfloor (x + (1 # 2))%Q).

(** The exponent of a positive rational: the [e] with [2^e <= q < 2^(e+1)]. *)
Definition ilog2 (q : Q) : Z :=
  let e := (Z.log2 (Qnum q) - Z.log2 (Zpos (Qden q)))%Z in
  if Qle_bool (2 ^ e)%Q q then e else (e - 1)%Z.

(** The nearest integer, halves to the even one. *)
Definition nearest_even (r : Q) : Z :=
  let f := Qfloor r in
  match (r - inject_Z f ?= 1 # 2)%Q with
  | Lt => f
  | Gt => (f + 1)%Z
  | Eq => if Z.even f then f else (f + 1)%Z
  end.

(** The binary64 value nearest to a positive rational, ties to even: a
    significand of 53 bits at the exponent of the rational. *)
Definition binary64_pos (q : Q) : Q :=
  let e := ilog2 q in
  (inject_Z (nearest_even (q * 2 ^ (52 - e))) * 2 ^ (e - 52))%Q.

(** The binary64 value an exact result is rounded to, for results whose
    magnitude is in the normal range (from 2^-1022 to below 2^1024), as
    those of byte counts below 2^64, their quotients and percentages are. *)
Definition binary64 (q : Q) : number :=
  match Qnum q with
  | Z0 => 0%Q
  | Zpos _ => binary64_pos q
  | Zneg _ => (- binary64_pos (- q))%Q
  end.

(** The number an integer attribute of an event is read as. *)
Definition to_number (z : Z) : number := binary64 (inject_Z z).

(** [a / b] and [a * b] on numbers. *)
Definition js_div (a b : number) : number := binary64 (a / b)%Q.
Definition js_mul (a b : number) : number := binary64 (a * b)%Q.

(** [++c] on a counter that holds a non-negative integer: exact below
    2^53, and stuck at 2^53, where [c + 1] rounds back to [c]. *)
Definition pre_increment (c : Z) : Z :=
  (if c <? 2 ^ 53 then c + 1 else c)%Z.

(** The string a template literal splices in for an integer-valued number
    of magnitude below 10^21: its decimal digits, with a sign when negative. *)
Definition Number_toString (z : Z) : string :=
  NilZero.string_of_int (Z.to_int z).

(** ** uploadStore.js *)

Inductive UploadStatus : Type :=
| Pending
| Uploading
| Processing
| Completed
| Error.

Definition UploadStatus_eqb (a b : UploadStatus) : bool :=
  match a, b with
  | Pending, Pending | Uploading, Uploading | Processing, Processing
  | Completed, Completed | Error, Error => true
  | _, _ => false
  end.

Module UploadItem.
Record t : Type := mk {
  id : string;
  fileName : string;
  fileSize : number;
  progress : number;
  status : UploadStatus;
  error : option string
}.
End UploadItem.

(** A pending [setTimeout] callback.  The only callback the store ever
    schedules is [() => removeUpload(id)], so a timer is its due time and
    that [id]. *)
Record Timer : Type := mkTimer {
  due : N;
  target : string
}.

(** An entry of the alert store: message and severity. *)
Definition Alert : Type := (string * string)%type.

(** The part of the page's state the store and the request touch:
    the module-level [uploadIdCounter], the value of the [uploads] signal,
    the event loop's monotonic clock (in ms) with its pending timers, and
    the alerts raised so far. *)
Record World : Type := mkWorld {
  uploadIdCounter : Z;
  uploads : list UploadItem.t;
  clock : N;
  timers : list Timer;
  alerts : list Alert
}.

(** The page right after the modules are loaded. *)
Definition initial (now : N) : World :=
  {| uploadIdCounter := 0; uploads := []; clock := now; timers := []; alerts := [] |}.

Definition setUploads (f : list UploadItem.t -> list UploadItem.t) (w : World) : World :=
  {| uploadIdCounter := uploadIdCounter w;
     uploads := f (uploads w);
     clock := clock w;
     timers := timers w;
     alerts := alerts w |}.

(** [setTimeout(() => removeUpload(id), delay)]. *)
Definition setTimeout (id : string) (delay : N) (w : World) : World :=
  {| uploadIdCounter := uploadIdCounter w;
     uploads := uploads w;
     clock := clock w;
     timers := timers w ++ [ {| due := (clock w + delay)%N; target := id |} ];
     alerts := alerts w |}.

(** [startUpload(fileName, fileSize)]; [Date_now] is what [Date.now()]
    answers during the call. *)
Definition startUpload (Date_now : Z) (fileName : string) (fileSize : number)
    (w : World) : string * World :=
  let counter := pre_increment (uploadIdCounter w) in
  let id := "upload-" ++ Number_toString counter ++ "-" ++ Number_toString Date_now in
  let newUpload :=
    {| UploadItem.id := id;
       UploadItem.fileName := fileName;
       UploadItem.fileSize := fileSize;
       UploadItem.progress := 0;
       UploadItem.status := Pending;
       UploadItem.error := None |} in
  (id,
   {| uploadIdCounter := counter;
      uploads := newUpload :: uploads w;
      clock := clock w;
      timers := timers w;
      alerts := alerts w |}).

Definition updateProgress (id : string) (progress : number) : World -> World :=
  setUploads (fun prev =>
    map (fun upload =>
           if UploadItem.id upload =? id
           then {| UploadItem.id := UploadItem.id upload;
                   UploadItem.fileName := UploadItem.fileName upload;
                   UploadItem.fileSize := UploadItem.fileSize upload;
                   UploadItem.progress := progress;
                   UploadItem.status := Uploading;
                   UploadItem.error := UploadItem.error upload |}
           else upload) prev).

Definition setProcessing (id : string) : World -> World :=
  setUploads (fun prev =>
    map (fun upload =>
           if UploadItem.id upload =? id
           then {| UploadItem.id := UploadItem.id upload;
                   UploadItem.fileName := UploadItem.fileName upload;
                   UploadItem.fileSize := UploadItem.fileSize upload;
                   UploadItem.progress := 100;
                   UploadItem.status := Processing;
                   UploadItem.error := UploadItem.error upload |}
           else upload) prev).

Definition removeUpload (id : string) : World -> World :=
  setUploads (fun prev =>
    filter (fun upload => negb (UploadItem.id upload =? id)) prev).

Definition completeUpload (id : string) (w : World) : World :=
  let w1 :=
    setUploads (fun prev =>
      map (fun upload =>
             if UploadItem.id upload =? id
             then {| UploadItem.id := UploadItem.id upload;
                     UploadItem.fileName := UploadItem.fileName upload;
                     UploadItem.fileSize := UploadItem.fileSize upload;
                     UploadItem.progress := UploadItem.progress upload;
                     UploadItem.status := Completed;
                     UploadItem.error := UploadItem.error upload |}
             else upload) prev) w in
  setTimeout id 3000 w1.

Definition failUpload (id : string) (error : string) : World -> World :=
  setUploads (fun prev =>
    map (fun upload =>
           if UploadItem.id upload =? id
           then {| UploadItem.id := UploadItem.id upload;
                   UploadItem.fileName := UploadItem.fileName upload;
                   UploadItem.fileSize := UploadItem.fileSize upload;
                   UploadItem.progress := UploadItem.progress upload;
                   UploadItem.status := Error;
                   UploadItem.error := Some error |}
           else upload) prev).

Definition hasActiveUploads (w : World) : bool :=
  existsb (fun u =>
             match UploadItem.status u with
             | Pending | Uploading | Processing => true
             | _ => false
             end) (uploads w).

(** ** The event loop's clock *)

(** Run the callbacks of the timers that are due, in the order they were
    scheduled, and keep the others. *)
Definition run_due (w : World) : World :=
  let fire := filter (fun t => (due t <=? clock w)%N) (timers w) in
  let keep := filter (fun t => negb (due t <=? clock w)%N) (timers w) in
  fold_left (fun w' t => removeUpload (target t) w') fire
    {| uploadIdCounter := uploadIdCounter w;
       uploads := uploads w;
       clock := clock w;
       timers := keep;
       alerts := alerts w |}.

(** [dt] ms pass, then the event loop serves the timers that came due. *)
Definition tick (dt : N) (w : World) : World :=
  run_due
    {| uploadIdCounter := uploadIdCounter w;
       uploads := uploads w;
       clock := (clock w + dt)%N;
       timers := timers w;
       alerts := alerts w |}.

(** The first record of the snapshot that carries [id]. *)
Definition lookup (id : string) (w : World) : option UploadItem.t :=
  find (fun u => UploadItem.id u =? id) (uploads w).

(** ** UploadProgress.jsx: the close button *)

(** The [Show when=...] guard around the close button of an upload item. *)
Definition close_button_shown (upload : UploadItem.t) : bool :=
  UploadStatus_eqb (UploadItem.status upload) Error
  || UploadStatus_eqb (UploadItem.status upload) Completed.

(** A click on the place of the close button of [upload]: its [onClick]
    runs only when the button is rendered. *)
Definition click_close (upload : UploadItem.t) (w : World) : World :=
  if close_button_shown upload then removeUpload (UploadItem.id upload) w else w.

(** ** The api module: apiMultipartRequestWithProgress *)

(** Modelled from the spec: the alert store of [components/AlertStack] is not
    among the sources; [addAlert(message, severity)] is taken as the
    fire-and-forget [notify] of the AlertChannel, recorded in order. *)
Definition addAlert (message severity : string) (w : World) : World :=
  {| uploadIdCounter := uploadIdCounter w;
     uploads := uploads w;
     clock := clock w;
     timers := timers w;
     alerts := alerts w ++ [ (message, severity) ] |}.

(** What [new Error(message)] holds. *)
Record JsError : Type := mkJsError {
  name : string;
  message : string
}.

Definition new_Error (msg : string) : JsError := {| name := "Error"; message := msg |}.

Section Request.

(** The values [JSON.parse] produces, and [JSON.parse] itself: [None]
    when it throws. *)
Variable JsValue : Type.
Variable JSON_parse : string -> option JsValue.

(** How a promise was settled; [Fulfilled None] is [resolve(undefined)]. *)
Inductive Settled : Type :=
| Fulfilled (value : option JsValue)
| Rejected (reason : JsError).

(** The promise returned to the caller: not settled yet, or settled. *)
Definition Promise : Type := option Settled.

(** [resolve] and [reject] settle a promise once; later calls are ignored. *)
Definition resolve (value : option JsValue) (p : Promise) : Promise :=
  match p with
  | None => Some (Fulfilled value)
  | Some _ => p
  end.

Definition reject (reason : JsError) (p : Promise) : Promise :=
  match p with
  | None => Some (Rejected reason)
  | Some _ => p
  end.

(** The events of one [XMLHttpRequest] the request listens to: [progress]
    and [load] on [xhr.upload], then [load], [error] and [abort] on [xhr]
    with [xhr.status] and [xhr.responseText] as they are at that time. *)
Inductive XhrEvent : Type :=
| upload_progress (lengthComputable : bool) (loaded total : Z)
| upload_load
| xhr_load (status : Z) (responseText : string)
| xhr_error
| xhr_abort.

(** One listener call: the page and the caller's promise before and after.
    An [XMLHttpRequest] reports [lengthComputable] only with a [total] that
    is not 0.  The percent is computed as the code computes it: [loaded] and
    [total] read as numbers, their quotient and its product with 100 each
    rounded to binary64, then [Math.round]. *)
Definition listener (uploadId : string) (ev : XhrEvent)
    (st : World * Promise) : World * Promise :=
  let (w, p) := st in
  match ev with
  | upload_progress lengthComputable loaded total =>
      if lengthComputable then
        let percentComplete :=
          Math_round (js_mul (js_div (to_number loaded) (to_number total)) 100) in
        (updateProgress uploadId percentComplete w, p)
      else (w, p)
  | upload_load =>
      (setProcessing uploadId w, p)
  | xhr_load status responseText =>
      if ((200 <=? status) && (status <? 300))%Z then
        let w1 := completeUpload uploadId w in
        match JSON_parse responseText with
        | Some response => (w1, resolve (Some response) p)
        | None => (w1, resolve None p)
        end
      else
        let errorMsg :=
          if responseText =? ""
          then "Upload failed with status " ++ Number_toString status
          else responseText in
        let w1 := failUpload uploadId errorMsg w in
        let w2 := addAlert errorMsg "error" w1 in
        (w2, reject (new_Error errorMsg) p)
  | xhr_error =>
      let errorMsg := "Network error during upload" in
      let w1 := failUpload uploadId errorMsg w in
      let w2 := addAlert errorMsg "error" w1 in
      (w2, reject (new_Error errorMsg) p)
  | xhr_abort =>
      let errorMsg := "Upload cancelled" in
      let w1 := failUpload uploadId errorMsg w in
      (w1, reject (new_Error errorMsg) p)
  end.

(** [apiMultipartRequestWithProgress(path, auth_token, form, fileName,
    fileSize)] up to [xhr.send]: the record is registered and the promise
    is pending.  [path], [auth_token] and [form] only shape the request
    put on the wire.  The [uploadId] of the closure is returned with the
    state, to address the listeners.  What a throw of [xhr.open],
    [xhr.setRequestHeader] or [xhr.send] does to the promise is
    [executor_end] below; the events of a request are those of a request
    that was sent. *)
Definition apiMultipartRequestWithProgress (Date_now : Z)
    (fileName : string) (fileSize : number) (w : World)
    : string * (World * Promise) :=
  let (uploadId, w1) := startUpload Date_now fileName fileSize w in
  (uploadId, (w1, None)).

(** The listeners run on a sequence of events of that request. *)
Definition dispatch (uploadId : string) (evs : list XhrEvent)
    (st : World * Promise) : World * Promise :=
  fold_left (fun st' ev => listener uploadId ev st') evs st.

(** The events that precede the final outcome: upload progress and the
    end of the upload. *)
Definition sending (ev : XhrEvent) : bool :=
  match ev with
  | upload_progress _ _ _ | upload_load => true
  | _ => false
  end.

End Request.

Arguments Fulfilled {JsValue} value.
Arguments Rejected {JsValue} reason.
Arguments resolve {JsValue} value p.
Arguments reject {JsValue} reason p.

(** ** Runs of the store *)

(** One turn of the event loop as far as the store is concerned: a call of
    one of its functions, or time passing. *)
Inductive Op : Type :=
| call_startUpload (Date_now : Z) (fileName : string) (fileSize : number)
| call_updateProgress (id : string) (progress : number)
| call_setProcessing (id : string)
| call_completeUpload (id : string)
| call_failUpload (id : string) (error : string)
| call_removeUpload (id : string)
| pass (dt : N).

(** The page after the turn, and the id the call returned, if it was a
    [startUpload]. *)
Definition exec (o : Op) (w : World) : World * list string :=
  match o with
  | call_startUpload Date_now fileName fileSize =>
      let (id, w') := startUpload Date_now fileName fileSize w in (w', [id])
  | call_updateProgress id progress => (updateProgress id progress w, [])
  | call_setProcessing id => (setProcessing id w, [])
  | call_completeUpload id => (completeUpload id w, [])
  | call_failUpload id error => (failUpload id error w, [])
  | call_removeUpload id => (removeUpload id w, [])
  | pass dt => (tick dt w, [])
  end.

(** A run: the page at its end and the ids handed out, oldest first. *)
Fixpoint run (ops : list Op) (w : World) : World * list string :=
  match ops with
  | [] => (w, [])
  | o :: ops' =>
      let (w1, ids1) := exec o w in
      let (w2, ids2) := run ops' w1 in
      (w2, (ids1 ++ ids2)%list)
  end.


(** Whether a turn is an explicit [removeUpload(id)]. *)
Definition removes (id : string) (o : Op) : bool :=
  match o with
  | call_removeUpload id' => id' =? id
  | _ => false
  end.

(** ** Vocabulary of the specification *)

(** The position of a status along Pending, Uploading, Processing and the
    two terminal states. *)
Definition rank (s : UploadStatus) : nat :=
  match s with
  | Pending => 0
  | Uploading => 1
  | Processing => 2
  | Completed => 3
  | Error => 3
  end.

Definition terminal (s : UploadStatus) : bool :=
  match s with
  | Completed | Error => true
  | _ => false
  end.

(** [snapshot()] contains [id]. *)
Definition contains (id : string) (w : World) : Prop :=
  exists u, In u (uploads w) /\ UploadItem.id u = id.

(** The order in which an [XMLHttpRequest] fires the events the request
    listens to: upload progress first, the end of the upload next, the
    outcome last. *)
Definition phase (ev : XhrEvent) : nat :=
  match ev with
  | upload_progress _ _ _ => 1
  | upload_load => 2
  | xhr_load _ _ | xhr_error | xhr_abort => 3
  end.

(** Whether [ev] may follow an event of phase [k]: progress may repeat, the
    end of the upload and the outcome come once. *)
Definition follows (k : nat) (ev : XhrEvent) : bool :=
  match phase ev with
  | 1 => (k <=? 1)%nat
  | n => (k <? n)%nat
  end.

(** Whether events come in that order, after an event of phase [k]. *)
Fixpoint ordered (k : nat) (evs : list XhrEvent) : bool :=
  match evs with
  | [] => true
  | ev :: evs' => follows k ev && ordered (phase ev) evs'
  end.

(** A step along Pending, Uploading, Processing and the terminal states
    that is forward, or no step at all. *)
Definition forward (a b : UploadStatus) : Prop :=
  rank a < rank b \/ a = b.

(** The shape shared by the callbacks the store maps over the collection:
    [f] on the records that carry [id], the others as they are. *)
Definition amend (id : string) (f : UploadItem.t -> UploadItem.t)
    (upload : UploadItem.t) : UploadItem.t :=
  if UploadItem.id upload =? id then f upload else upload.

(** The record of a request in flight: found under its id, with the file
    name and size it was started with. *)
Definition tracks (id fileName : string) (fileSize : number) (w : World) : Prop :=
  exists u, lookup id w = Some u
            /\ UploadItem.fileName u = fileName
            /\ UploadItem.fileSize u = fileSize.

(** Whether a text has no dash in it. *)
Fixpoint dash_free (s : string) : bool :=
  match s with
  | EmptyString => true
  | String c s' => negb (Ascii.eqb c "-") && dash_free s'
  end.

(** The number of [startUpload] calls of a run. *)
Fixpoint creations (ops : list Op) : nat :=
  match ops with
  | [] => 0
  | call_startUpload _ _ _ :: ops' => S (creations ops')
  | _ :: ops' => creations ops'
  end.

(** The id built from a counter value and a time stamp. *)
Definition upload_id (counter Date_now : Z) : string :=
  "upload-" ++ Number_toString counter ++ "-" ++ Number_toString Date_now.

(** ** Sample pages *)

(** The id of the first upload of a page loaded at time 0. *)
Definition first_id : string := "upload-1-0".

(** One upload of [a.txt], started at time 0 and driven by [ops]. *)
Definition page_after (ops : list Op) : World :=
  fst (run (call_startUpload 0 "a.txt" 1000 :: ops) (initial 0)).

(** A stand-in for [JSON.parse] on sample pages: strings as values, and
    only the text of the empty object parses. *)
Definition sample_parse (s : string) : option string :=
  if s =? "{}" then Some s else None.

(** ** UploadProgress.jsx: what an upload item shows *)






(** [UploadProgress]: the panel is rendered when [uploads().length > 0]. *)
Definition panel_shown (w : World) : bool :=
  (0 <? List.length (uploads w))%nat.

(** ** The api module: apiRequest and apiMultipartRequest *)

(** A [Response] as far as the api module reads it: its status, and its
    body as text, or the error with which reading the body fails. *)
Module Response.
Record t : Type := mk {
  status : Z;
  body : JsError + string
}.

(** [response.ok]: the status is in 200..299. *)
Definition ok (response : t) : bool :=
  ((200 <=? status response) && (status response <=? 299))%Z.
End Response.

(** What the awaited [fetch(...)] expression gives: it throws (the network
    fails, or the body cannot be serialised), or it returns a response. *)
Inductive Fetched : Type :=
| fetch_threw (err : JsError)
| fetch_returned (response : Response.t).

Section Fetch.

Variable JsValue : Type.
Variable JSON_parse : string -> option JsValue.

(** [response.json()]: the body read as text and parsed; [None] when either
    step fails. *)
Definition Response_json (response : Response.t) : option JsValue :=
  match Response.body response with
  | inr text => JSON_parse text
  | inl _ => None
  end.

(** What the promise of [apiRequest] is fulfilled with. *)
Inductive ApiValue : Type :=
| the_response (response : Response.t)
| the_json (value : JsValue)
| the_undefined.

(** [if (auth_token)]: a token that is [null], [undefined] or the empty
    string counts as absent. *)
Definition truthy (auth_token : option string) : bool :=
  match auth_token with
  | Some token => negb (token =? "")
  | None => false
  end.

(** The statements before the [try] block.  Only
    [headers.append('Authorization', auth_token)] can throw there, and it
    runs only for a truthy token; [append_threw] is what it throws when the
    token is not a header value. *)
Definition thrown_before_try (auth_token : option string)
    (append_threw : option JsError) : option JsError :=
  if truthy auth_token then append_threw else None.

(** [apiRequest(path, method, auth_token, body, return_response)]: the page
    afterwards, and the error thrown or the value returned.  What is thrown
    before the [try] block leaves the function as it is, with no request
    and no alert; [fetched] is the outcome of the [fetch] inside it. *)
Definition apiRequest (auth_token : option string) (append_threw : option JsError)
    (return_response : bool) (fetched : Fetched) (w : World)
    : World * (JsError + ApiValue) :=
  match thrown_before_try auth_token append_threw with
  | Some err => (w, inl err)
  | None =>
      match fetched with
      | fetch_threw err => (addAlert (message err) "error" w, inl err)
      | fetch_returned response =>
          if negb (Response.ok response) then
            match Response.body response with
            | inr text =>
                let err := new_Error text in
                (addAlert (message err) "error" w, inl err)
            | inl err => (addAlert (message err) "error" w, inl err)
            end
          else if return_response then (w, inr (the_response response))
          else
            match Response_json response with
            | Some value => (w, inr (the_json value))
            | None => (w, inr the_undefined)
            end
      end
  end.

(** [apiMultipartRequest(path, auth_token, form)], likewise. *)
Definition apiMultipartRequest (auth_token : option string)
    (append_threw : option JsError) (fetched : Fetched) (w : World)
    : World * (JsError + ApiValue) :=
  match thrown_before_try auth_token append_threw with
  | Some err => (w, inl err)
  | None =>
      match fetched with
      | fetch_threw err => (addAlert (message err) "error" w, inl err)
      | fetch_returned response =>
          if negb (Response.ok response) then
            match Response.body response with
            | inr text =>
                let err := new_Error text in
                (addAlert (message err) "error" w, inl err)
            | inl err => (addAlert (message err) "error" w, inl err)
            end
          else
            match Response_json response with
            | Some value => (w, inr (the_json value))
            | None => (w, inr the_undefined)
            end
      end
  end.

(** The promise of an [async] function that threw or returned, among the
    promises of the request with progress; a [Response] handed back whole
    has no counterpart there. *)
Definition settled_as (r : JsError + ApiValue) : option (Settled JsValue) :=
  match r with
  | inl err => Some (Rejected err)
  | inr (the_json value) => Some (Fulfilled (Some value))
  | inr the_undefined => Some (Fulfilled None)
  | inr (the_response _) => None
  end.

(** ** Several requests in flight *)

(** The promises of the requests in flight, by upload id. *)
Definition Promises : Type := string -> Promise JsValue.

(** One event of the request [fst e] delivered to its listener. *)
Definition deliver (e : string * XhrEvent) (st : World * Promises) : World * Promises :=
  let (w', p') := listener JsValue JSON_parse (fst e) (snd e) (fst st, snd st (fst e)) in
  (w', fun i => if i =? fst e then p' else snd st i).

Definition deliver_all (es : list (string * XhrEvent)) (st : World * Promises)
    : World * Promises :=
  fold_left (fun st' e => deliver e st') es st.

(** The events of the request [id] among [es], in order. *)
Definition events_of (id : string) (es : list (string * XhrEvent)) : list XhrEvent :=
  map snd (filter (fun e => fst e =? id) es).

End Fetch.

Arguments the_response {JsValue} response.
Arguments the_json {JsValue} value.
Arguments the_undefined {JsValue}.

(** ** The end of the executor of apiMultipartRequestWithProgress *)

Section Executor.

Variable JsValue : Type.

(** [xhr.open], [xhr.setRequestHeader] (for a truthy [auth_token]) and
    [xhr.send], the last statements of the promise's executor: [threw] is
    what one of them throws, if one does.  A throw inside the executor
    rejects the promise; the record registered by [startUpload] is left as
    it is, and no event of the request will follow. *)
Definition executor_end (threw : option JsError) (st : World * Promise JsValue)
    : World * Promise JsValue :=
  match threw with
  | Some err => (fst st, reject err (snd st))
  | None => st
  end.

End Executor.

(** Whether a listener call raises an alert: a response outside 200..299,
    or a network error. *)
Definition alerting (ev : XhrEvent) : bool :=
  match ev with
  | xhr_load status _ => negb ((200 <=? status) && (status <? 300))%Z
  | xhr_error => true
  | _ => false
  end.

(** [a] is [b] with some elements left out. *)
Inductive subseq {A : Type} : list A -> list A -> Prop :=
| subseq_nil : subseq [] []
| subseq_skip (x : A) (a b : list A) : subseq a b -> subseq a (x :: b)
| subseq_keep (x : A) (a b : list A) : subseq a b -> subseq (x :: a) (x :: b).

(** What stays of a record whatever the store does to it. *)
Definition key (u : UploadItem.t) : string * string * number :=
  (UploadItem.id u, UploadItem.fileName u, UploadItem.fileSize u).

(** The fields of a record agree with its status. *)
Definition coherent (u : UploadItem.t) : Prop :=
  (UploadItem.status u = Pending ->
     UploadItem.progress u = 0%Q /\ UploadItem.error u = None)
  /\ (UploadItem.status u = Processing -> UploadItem.progress u = 100%Q)
  /\ (UploadItem.status u = Error -> UploadItem.error u <> None).

(** A turn addressed to [id] that may take its record away: an explicit
    removal, or a completion, which schedules one. *)
Definition discards (id : string) (o : Op) : bool :=
  match o with
  | call_removeUpload id' | call_completeUpload id' => id' =? id
  | _ => false
  end.

(** The id a call of the store is addressed to; [startUpload] and the
    passing of time are addressed to none. *)
Definition addressee (o : Op) : option string :=
  match o with
  | call_updateProgress id _ | call_setProcessing id | call_completeUpload id
  | call_failUpload id _ | call_removeUpload id => Some id
  | call_startUpload _ _ _ | pass _ => None
  end.

(** The ids on the page are different and were issued by counter values up
    to the current one. *)
Definition issued (w : World) (u : UploadItem.t) : Prop :=
  exists k t, (0 <= k <= uploadIdCounter w)%Z /\ UploadItem.id u = upload_id k t.

Definition keyed (w : World) : Prop :=
  (0 <= uploadIdCounter w)%Z
  /\ NoDup (map UploadItem.id (uploads w))
  /\ Forall (issued w) (uploads w).

(** Every Completed record has a timer waiting for it. *)
Definition awaited (w : World) : Prop :=
  forall u, In u (uploads w) -> UploadItem.status u = Completed ->
            exists t, In t (timers w) /\ target t = UploadItem.id u.

(** How many records of [l] carry [id]. *)
Definition carrying (id : string) (l : list UploadItem.t) : nat :=
  List.length (filter (fun u => UploadItem.id u =? id) l).

(** ** Records addressed by position *)

Section Amend.

Variable id : string.
Variable f : UploadItem.t -> UploadItem.t.

Lemma nth_error_amend_hit (l : list UploadItem.t) (n : nat) (u : UploadItem.t) :
  nth_error l n = Some u -> UploadItem.id u = id ->
  nth_error (map (amend id f) l) n = Some (f u).
Proof.
  intros Hn Hid. rewrite nth_error_map, Hn. cbn. unfold amend.
  now rewrite Hid, String.eqb_refl.
Qed.

Lemma map_amend_absent (l : list UploadItem.t) :
  (forall u, In u l -> UploadItem.id u <> id) -> map (amend id f) l = l.
Proof.
  induction l as [|a l IH]; intros H; cbn; [reflexivity|].
  rewrite IH by (intros u Hu; apply H; now right).
  unfold amend. specialize (H a (or_introl eq_refl)).
  apply String.eqb_neq in H. now rewrite H.
Qed.

End Amend.

Lemma find_amend (id : string) (f : UploadItem.t -> UploadItem.t) (l : list UploadItem.t) :
  (forall x, UploadItem.id (f x) = UploadItem.id x) ->
  find (fun x => UploadItem.id x =? id) (map (amend id f) l)
  = option_map f (find (fun x => UploadItem.id x =? id) l).
Proof.
  intros Hf. induction l as [|a l IH]; cbn; [reflexivity|].
  unfold amend at 1 2. destruct (UploadItem.id a =? id) eqn:E.
  - now rewrite Hf, E.
  - now rewrite E.
Qed.

Lemma find_present (id : string) (l : list UploadItem.t) (u : UploadItem.t) :
  In u l -> UploadItem.id u = id ->
  find (fun x => UploadItem.id x =? id) l <> None.
Proof.
  intros Hin Hid Hnone. pose proof (find_none _ _ Hnone u Hin) as H.
  cbn in H. now rewrite Hid, String.eqb_refl in H.
Qed.

Lemma setUploads_same (f : list UploadItem.t -> list UploadItem.t) (w : World) :
  f (uploads w) = uploads w -> setUploads f w = w.
Proof. destruct w; unfold setUploads; cbn; intros ->; reflexivity. Qed.

Lemma filter_absent (id : string) (l : list UploadItem.t) :
  (forall u, In u l -> UploadItem.id u <> id) ->
  filter (fun upload => negb (UploadItem.id upload =? id)) l = l.
Proof.
  induction l as [|a l IH]; intros H; cbn; [reflexivity|].
  specialize (H a (or_introl eq_refl)) as Ha.
  apply String.eqb_neq in Ha. rewrite Ha. cbn.
  f_equal. apply IH. intros u Hu. apply H. now right.
Qed.

Lemma absent_spec (id : string) (w : World) :
  ~ contains id w -> forall u, In u (uploads w) -> UploadItem.id u <> id.
Proof. intros H u Hu Hid. apply H. now exists u. Qed.

Lemma In_removeUpload (id : string) (w : World) (u : UploadItem.t) :
  In u (uploads (removeUpload id w)) <-> In u (uploads w) /\ UploadItem.id u <> id.
Proof.
  unfold removeUpload, setUploads; cbn. rewrite filter_In, negb_true_iff.
  now rewrite String.eqb_neq.
Qed.

(** ** The store, one call at a time *)

(** C3, as the code has it: [setProcessing(id)] sets the progress of the
    record that carries [id] to 100; [completeUpload(id)] and
    [failUpload(id, message)] leave its progress as it was. *)
Theorem progress_after_leaving_Uploading
    (w : World) (id : string) (n : nat) (u : UploadItem.t) :
  nth_error (uploads w) n = Some u ->
  UploadItem.id u = id ->
  (exists u',
      nth_error (uploads (setProcessing id w)) n = Some u'
      /\ UploadItem.status u' = Processing
      /\ UploadItem.progress u' = 100%Q)
  /\ (exists u',
         nth_error (uploads (completeUpload id w)) n = Some u'
         /\ UploadItem.status u' = Completed
         /\ UploadItem.progress u' = UploadItem.progress u)
  /\ (forall message, exists u',
         nth_error (uploads (failUpload id message w)) n = Some u'
         /\ UploadItem.status u' = Error
         /\ UploadItem.progress u' = UploadItem.progress u).
Proof.
  intros Hn Hid. split; [|split; [|intros message]]; eexists.
  - split.
    + unfold setProcessing, setUploads; cbn.
      apply (nth_error_amend_hit id _ _ n u Hn Hid).
    + split; reflexivity.
  - split.
    + unfold completeUpload, setTimeout, setUploads; cbn.
      apply (nth_error_amend_hit id _ _ n u Hn Hid).
    + split; reflexivity.
  - split.
    + unfold failUpload, setUploads; cbn.
      apply (nth_error_amend_hit id _ _ n u Hn Hid).
    + split; reflexivity.
Qed.

Lemma progress_after_leaving_Uploading_witness :
  let w := page_after [call_updateProgress first_id 40] in
  let u := UploadItem.mk first_id "a.txt" 1000 40 Uploading None in
  nth_error (uploads w) 0 = Some u
  /\ UploadItem.id u = first_id
  /\ (exists u',
         nth_error (uploads (setProcessing first_id w)) 0 = Some u'
         /\ UploadItem.progress u' = 100%Q)
  /\ (exists u',
         nth_error (uploads (failUpload first_id "Upload cancelled" w)) 0 = Some u'
         /\ UploadItem.progress u' = 40%Q).
Proof.
  cbv zeta. split; [reflexivity|]. split; [reflexivity|].
  destruct (progress_after_leaving_Uploading
              (page_after [call_updateProgress first_id 40]) first_id 0
              (UploadItem.mk first_id "a.txt" 1000 40 Uploading None)
              eq_refl eq_refl) as ((u1 & H1 & _ & P1) & _ & F).
  destruct (F "Upload cancelled") as (u2 & H2 & _ & P2).
  split; [exists u1 | exists u2]; split; assumption.
Defined.

(** C3, as stated, fails: an upload that fails, or completes, at 40 percent
    keeps progress 40, and progress 100 does not survive a later
    [updateProgress]. *)
Lemma progress_not_fixed_at_100 :
  let sending := page_after [call_updateProgress first_id 40] in
  option_map UploadItem.progress
    (lookup first_id (failUpload first_id "Upload cancelled" sending)) = Some (40%Q)
  /\ option_map UploadItem.progress
       (lookup first_id (completeUpload first_id sending)) = Some (40%Q)
  /\ option_map UploadItem.progress
       (lookup first_id
          (updateProgress first_id 70 (setProcessing first_id sending))) = Some (70%Q).
Proof. vm_compute. repeat split. Qed.

Lemma subseq_filter (A : Type) (p : A -> bool) (l : list A) : subseq (filter p l) l.
Proof. induction l as [|a l IH]; cbn; [constructor|]. destruct (p a); now constructor. Qed.

Lemma length_filter_carrying (id : string) (l : list UploadItem.t) :
  List.length (filter (fun u => negb (UploadItem.id u =? id)) l) + carrying id l
  = List.length l.
Proof.
  unfold carrying. induction l as [|a l IH]; cbn; [reflexivity|].
  destruct (UploadItem.id a =? id); cbn; lia.
Qed.

Lemma carrying_firstn_le (id : string) (n : nat) (l : list UploadItem.t) :
  carrying id (firstn n l) <= n.
Proof.
  unfold carrying. revert l. induction n as [|n IH]; intros [|a l]; cbn; try lia.
  specialize (IH l). destruct (UploadItem.id a =? id); cbn; lia.
Qed.

(** A record that stays moves up by the number of records dropped before it. *)
Lemma nth_error_filter_shift (id : string) (l : list UploadItem.t) (n : nat)
    (u : UploadItem.t) :
  nth_error l n = Some u ->
  UploadItem.id u <> id ->
  nth_error (filter (fun x => negb (UploadItem.id x =? id)) l)
    (n - carrying id (firstn n l)) = Some u.
Proof.
  revert n. induction l as [|a l IH]; intros [|n] Hn Hid; try discriminate Hn.
  - cbn in Hn. injection Hn as ->. cbn. apply String.eqb_neq in Hid. now rewrite Hid.
  - cbn in Hn. specialize (IH n Hn Hid).
    pose proof (carrying_firstn_le id n l) as Hle.
    unfold carrying in *. cbn [firstn filter].
    destruct (UploadItem.id a =? id); cbn [negb List.length].
    + exact IH.
    + replace (S n - List.length (filter (fun x => UploadItem.id x =? id) (firstn n l)))
        with (S (n - List.length (filter (fun x => UploadItem.id x =? id) (firstn n l))))
        by lia.
      exact IH.
Qed.

(** C4, as the code has it: [removeUpload(id)] drops the records that carry
    [id] whatever their status and keeps the others, in their order: each of
    them moves up by the number of records dropped before it; the
    restriction to terminal states is the renderer's, whose close button
    exists only on records that are Completed or Error. *)
Theorem removeUpload_whatever_the_status (w : World) (id : string) :
  (forall u, In u (uploads (removeUpload id w))
             <-> In u (uploads w) /\ UploadItem.id u <> id)
  /\ ~ contains id (removeUpload id w)
  /\ (forall u, terminal (UploadItem.status u) = false -> click_close u w = w)
  /\ (forall u, terminal (UploadItem.status u) = true ->
                click_close u w = removeUpload (UploadItem.id u) w)
  /\ subseq (uploads (removeUpload id w)) (uploads w)
  /\ List.length (uploads (removeUpload id w)) + carrying id (uploads w)
     = List.length (uploads w)
  /\ (forall n u,
        nth_error (uploads w) n = Some u ->
        UploadItem.id u <> id ->
        nth_error (uploads (removeUpload id w))
          (n - carrying id (firstn n (uploads w))) = Some u).
Proof.
  split; [intros u; apply In_removeUpload|].
  split; [intros (u & Hu & Hid); apply In_removeUpload in Hu; tauto|].
  split; [|split; [|split; [|split]]].
  - intros u Hu; unfold click_close, close_button_shown;
      destruct (UploadItem.status u); cbn in *; congruence.
  - intros u Hu; unfold click_close, close_button_shown;
      destruct (UploadItem.status u); cbn in *; congruence.
  - apply subseq_filter.
  - apply length_filter_carrying.
  - intros n u Hn Hid. now apply nth_error_filter_shift.
Qed.

Lemma removeUpload_whatever_the_status_witness :
  let w := page_after [call_updateProgress first_id 40] in
  let u := UploadItem.mk first_id "a.txt" 1000 40 Uploading None in
  let three := fst (run [call_startUpload 0 "a.txt" 1000; call_startUpload 0 "b.txt" 20;
                         call_startUpload 0 "c.txt" 3] (initial 0)) in
  let a := UploadItem.mk "upload-1-0" "a.txt" 1000 0 Pending None in
  terminal (UploadItem.status u) = false
  /\ click_close u w = w
  /\ ~ contains first_id (removeUpload first_id w)
  /\ nth_error (uploads three) 2 = Some a
  /\ UploadItem.id a <> "upload-2-0"
  /\ map UploadItem.id (uploads three) = ["upload-3-0"; "upload-2-0"; "upload-1-0"]
  /\ map UploadItem.id (uploads (removeUpload "upload-2-0" three))
     = ["upload-3-0"; "upload-1-0"]
  /\ nth_error (uploads (removeUpload "upload-2-0" three)) 1 = Some a.
Proof.
  cbv zeta. split; [reflexivity|].
  destruct (removeUpload_whatever_the_status
              (page_after [call_updateProgress first_id 40]) first_id)
    as (_ & Hgone & Hclick & _).
  split; [exact (Hclick (UploadItem.mk first_id "a.txt" 1000 40 Uploading None) eq_refl)|].
  split; [exact Hgone|].
  assert (Hne : "upload-1-0" <> "upload-2-0") by discriminate.
  split; [reflexivity|]. split; [exact Hne|]. split; [reflexivity|].
  split; [reflexivity|].
  destruct (removeUpload_whatever_the_status
              (fst (run [call_startUpload 0 "a.txt" 1000; call_startUpload 0 "b.txt" 20;
                         call_startUpload 0 "c.txt" 3] (initial 0))) "upload-2-0")
    as (_ & _ & _ & _ & _ & _ & Hpos).
  exact (Hpos 2 (UploadItem.mk "upload-1-0" "a.txt" 1000 0 Pending None) eq_refl Hne).
Defined.

(** C4, as stated, fails: [removeUpload] on a record that is Pending,
    Uploading or Processing removes it. *)
Lemma removeUpload_drops_active_record :
  let fresh := page_after [] in
  let sending := page_after [call_updateProgress first_id 40] in
  let processing := page_after [call_setProcessing first_id] in
  (option_map UploadItem.status (lookup first_id fresh) = Some Pending
   /\ uploads (removeUpload first_id fresh) = [])
  /\ (option_map UploadItem.status (lookup first_id sending) = Some Uploading
      /\ uploads (removeUpload first_id sending) = [])
  /\ (option_map UploadItem.status (lookup first_id processing) = Some Processing
      /\ uploads (removeUpload first_id processing) = []).
Proof. vm_compute. repeat split. Qed.

(** C9: with an id that no record carries, [updateProgress], [setProcessing],
    [failUpload] and [removeUpload] leave the page as it is, and
    [completeUpload] only schedules its timer, the collection as it is; the
    calls are total functions, nothing is thrown.  [removeUpload] twice is
    [removeUpload] once, whether or not the id is there. *)
Theorem unknown_id_is_ignored (w : World) (id : string) :
  (~ contains id w ->
     (forall percent, updateProgress id percent w = w)
     /\ setProcessing id w = w
     /\ completeUpload id w = setTimeout id 3000 w
     /\ uploads (completeUpload id w) = uploads w
     /\ (forall message, failUpload id message w = w)
     /\ removeUpload id w = w)
  /\ removeUpload id (removeUpload id w) = removeUpload id w.
Proof.
  split.
  - intros Habs. pose proof (absent_spec id w Habs) as H.
    assert (Hmap : forall f, map (amend id f) (uploads w) = uploads w)
      by (intros f; now apply map_amend_absent).
    repeat split.
    + intros percent. apply setUploads_same. apply Hmap.
    + apply setUploads_same. apply Hmap.
    + unfold completeUpload. f_equal. apply setUploads_same. apply Hmap.
    + unfold completeUpload, setTimeout, setUploads; cbn. apply Hmap.
    + intros message. apply setUploads_same. apply Hmap.
    + apply setUploads_same. now apply filter_absent.
  - apply setUploads_same. apply filter_absent.
    intros u Hu. apply In_removeUpload in Hu. tauto.
Qed.

Lemma unknown_id_is_ignored_witness :
  let w := page_after [call_updateProgress first_id 40] in
  ~ contains "upload-7-0" w
  /\ updateProgress "upload-7-0" 99 w = w
  /\ removeUpload "upload-7-0" w = w
  /\ removeUpload first_id (removeUpload first_id w) = removeUpload first_id w.
Proof.
  cbv zeta.
  assert (Habs : ~ contains "upload-7-0" (page_after [call_updateProgress first_id 40])).
  { intros (u & [<- | []] & Hid). discriminate Hid. }
  split; [exact Habs|].
  destruct (unknown_id_is_ignored
              (page_after [call_updateProgress first_id 40]) "upload-7-0")
    as (H & _).
  destruct (H Habs) as (Hp & _ & _ & _ & _ & Hr).
  split; [apply Hp|]. split; [exact Hr|].
  apply (unknown_id_is_ignored (page_after [call_updateProgress first_id 40]) first_id).
Defined.

(** C10: [updateProgress(id, p)] stores [p] itself in the record that
    carries [id], for every [p]: below 0, above 100, fractional, or below
    the progress stored before. *)
Theorem updateProgress_stores_argument
    (w : World) (id : string) (p : number) (n : nat) (u : UploadItem.t) :
  nth_error (uploads w) n = Some u ->
  UploadItem.id u = id ->
  exists u',
    nth_error (uploads (updateProgress id p w)) n = Some u'
    /\ UploadItem.progress u' = p
    /\ lookup id (updateProgress id p w) <> None
    /\ forall v, lookup id (updateProgress id p w) = Some v -> UploadItem.progress v = p.
Proof.
  intros Hn Hid.
  exists (UploadItem.mk (UploadItem.id u) (UploadItem.fileName u) (UploadItem.fileSize u)
            p Uploading (UploadItem.error u)).
  split; [|split; [reflexivity|]].
  - unfold updateProgress, setUploads; cbn.
    exact (nth_error_amend_hit id
             (fun upload =>
                UploadItem.mk (UploadItem.id upload) (UploadItem.fileName upload)
                  (UploadItem.fileSize upload) p Uploading (UploadItem.error upload))
             _ n u Hn Hid).
  - assert (Hlook : lookup id (updateProgress id p w)
                   = option_map
                       (fun upload =>
                          UploadItem.mk (UploadItem.id upload) (UploadItem.fileName upload)
                            (UploadItem.fileSize upload) p Uploading (UploadItem.error upload))
                       (lookup id w))
      by (apply find_amend; reflexivity).
    rewrite Hlook. apply nth_error_In in Hn.
    pose proof (find_present id _ u Hn Hid) as Hsome. fold (lookup id w) in Hsome.
    destruct (lookup id w) as [x|]; [|congruence].
    cbn. split; [discriminate|]. now intros v [= <-].
Qed.

Lemma updateProgress_stores_argument_witness :
  let w := page_after [call_updateProgress first_id 80] in
  let u := UploadItem.mk first_id "a.txt" 1000 80 Uploading None in
  nth_error (uploads w) 0 = Some u
  /\ UploadItem.id u = first_id
  /\ option_map UploadItem.progress (lookup first_id (updateProgress first_id (-7 # 2) w))
     = Some (-7 # 2)%Q
  /\ option_map UploadItem.progress (lookup first_id (updateProgress first_id 250 w))
     = Some 250%Q.
Proof.
  cbv zeta. split; [reflexivity|]. split; [reflexivity|].
  split.
  - destruct (updateProgress_stores_argument
                (page_after [call_updateProgress first_id 80]) first_id (-7 # 2) 0
                (UploadItem.mk first_id "a.txt" 1000 80 Uploading None)
                eq_refl eq_refl) as (u' & _ & _ & Hsome & Hp).
    destruct (lookup first_id _) as [v|]; [|congruence].
    cbn. f_equal. now apply Hp.
  - destruct (updateProgress_stores_argument
                (page_after [call_updateProgress first_id 80]) first_id 250 0
                (UploadItem.mk first_id "a.txt" 1000 80 Uploading None)
                eq_refl eq_refl) as (u' & _ & _ & Hsome & Hp).
    destruct (lookup first_id _) as [v|]; [|congruence].
    cbn. f_equal. now apply Hp.
Defined.

(** ** The request, event by event *)

Lemma lookup_updateProgress (id : string) (p : number) (w : World) :
  lookup id (updateProgress id p w)
  = option_map
      (fun upload =>
         UploadItem.mk (UploadItem.id upload) (UploadItem.fileName upload)
           (UploadItem.fileSize upload) p Uploading (UploadItem.error upload))
      (lookup id w).
Proof. apply find_amend; reflexivity. Qed.

Lemma lookup_setProcessing (id : string) (w : World) :
  lookup id (setProcessing id w)
  = option_map
      (fun upload =>
         UploadItem.mk (UploadItem.id upload) (UploadItem.fileName upload)
           (UploadItem.fileSize upload) 100 Processing (UploadItem.error upload))
      (lookup id w).
Proof. apply find_amend; reflexivity. Qed.

Lemma lookup_completeUpload (id : string) (w : World) :
  lookup id (completeUpload id w)
  = option_map
      (fun upload =>
         UploadItem.mk (UploadItem.id upload) (UploadItem.fileName upload)
           (UploadItem.fileSize upload) (UploadItem.progress upload) Completed
           (UploadItem.error upload))
      (lookup id w).
Proof.
  unfold lookup, completeUpload, setTimeout, setUploads; cbn.
  apply find_amend; reflexivity.
Qed.

Lemma lookup_failUpload (id : string) (message : string) (w : World) :
  lookup id (failUpload id message w)
  = option_map
      (fun upload =>
         UploadItem.mk (UploadItem.id upload) (UploadItem.fileName upload)
           (UploadItem.fileSize upload) (UploadItem.progress upload) Error
           (Some message))
      (lookup id w).
Proof. apply find_amend; reflexivity. Qed.

Section RequestFacts.

Context {JsValue : Type} (JSON_parse : string -> option JsValue).

Lemma dispatch_snoc (id : string) (evs : list XhrEvent) (ev : XhrEvent)
    (st : World * Promise JsValue) :
  dispatch JsValue JSON_parse id (evs ++ [ev]) st
  = listener JsValue JSON_parse id ev (dispatch JsValue JSON_parse id evs st).
Proof. unfold dispatch. now rewrite fold_left_app. Qed.

Lemma listener_failure (id : string) (status : Z) (body : string) (w : World)
    (p : Promise JsValue) :
  (status < 200 \/ 300 <= status)%Z ->
  body <> "" ->
  listener JsValue JSON_parse id (xhr_load status body) (w, p)
  = (addAlert body "error" (failUpload id body w), reject (new_Error body) p).
Proof.
  intros Hstatus Hbody. unfold listener.
  assert (Hrange : ((200 <=? status) && (status <? 300))%Z = false).
  { apply andb_false_iff. destruct Hstatus; [left|right]; lia. }
  apply String.eqb_neq in Hbody. now rewrite Hrange, Hbody.
Qed.

Lemma listener_success (id : string) (status : Z) (body : string) (w : World)
    (p : Promise JsValue) :
  (200 <= status < 300)%Z ->
  listener JsValue JSON_parse id (xhr_load status body) (w, p)
  = (completeUpload id w, resolve (JSON_parse body) p).
Proof.
  intros Hstatus. unfold listener.
  assert (Hrange : ((200 <=? status) && (status <? 300))%Z = true).
  { apply andb_true_iff. split; lia. }
  rewrite Hrange. now destruct (JSON_parse body).
Qed.

(** Upload progress and the end of the upload keep the record in place,
    raise no alert and leave the promise pending. *)
Lemma sending_keeps (id fileName : string) (fileSize : number)
    (evs : list XhrEvent) (w : World) (p : Promise JsValue) :
  forallb sending evs = true ->
  tracks id fileName fileSize w ->
  tracks id fileName fileSize (fst (dispatch JsValue JSON_parse id evs (w, p)))
  /\ alerts (fst (dispatch JsValue JSON_parse id evs (w, p))) = alerts w
  /\ snd (dispatch JsValue JSON_parse id evs (w, p)) = p.
Proof.
  revert w. induction evs as [|ev evs IH]; intros w Hs Ht; [now cbn|].
  cbn in Hs. apply andb_true_iff in Hs. destruct Hs as [Hev Hs].
  destruct Ht as (u & Hu & Hn & Hz).
  destruct ev as [lc loaded total| | | |]; try discriminate Hev; cbn.
  - destruct lc.
    + specialize (IH (updateProgress id
                        (Math_round
                           (js_mul (js_div (to_number loaded) (to_number total)) 100))
                        w) Hs).
      apply IH. eexists. rewrite lookup_updateProgress, Hu. cbn. now split.
    + apply IH; [assumption|]. now exists u.
  - specialize (IH (setProcessing id w) Hs).
    apply IH. eexists. rewrite lookup_setProcessing, Hu. cbn. now split.
Qed.

(** The request registers its record at the head of the collection. *)
Lemma request_tracks (Date_now : Z) (fileName : string) (fileSize : number) (w : World) :
  tracks (fst (apiMultipartRequestWithProgress JsValue Date_now fileName fileSize w))
    fileName fileSize
    (fst (snd (apiMultipartRequestWithProgress JsValue Date_now fileName fileSize w)))
  /\ alerts (fst (snd (apiMultipartRequestWithProgress JsValue Date_now fileName fileSize w)))
     = alerts w
  /\ snd (snd (apiMultipartRequestWithProgress JsValue Date_now fileName fileSize w)) = None.
Proof.
  unfold apiMultipartRequestWithProgress, startUpload, tracks, lookup; cbn.
  rewrite String.eqb_refl. split; [|now split]. eexists. now split.
Qed.

(** A listener call moves the status of the record forward when the event
    is not out of order. *)
Lemma listener_forward (id : string) (ev : XhrEvent) (w : World)
    (p : Promise JsValue) (u : UploadItem.t) (k : nat) :
  lookup id w = Some u ->
  rank (UploadItem.status u) <= k ->
  follows k ev = true ->
  exists u',
    lookup id (fst (listener JsValue JSON_parse id ev (w, p))) = Some u'
    /\ forward (UploadItem.status u) (UploadItem.status u')
    /\ rank (UploadItem.status u') <= phase ev.
Proof.
  intros Hu Hk Hphase. unfold forward.
  destruct ev as [lc loaded total| |status body| |];
    cbn [listener follows phase] in *;
    first [apply Nat.leb_le in Hphase | apply Nat.ltb_lt in Hphase].
  - destruct lc; cbn [fst].
    + rewrite lookup_updateProgress, Hu. cbn. eexists. split; [reflexivity|]. cbn.
      split; [|lia]. destruct (UploadItem.status u); cbn in *; auto; lia.
    + exists u. split; [exact Hu|]. split; [now right|lia].
  - cbn [fst]. rewrite lookup_setProcessing, Hu. cbn. eexists.
    split; [reflexivity|]. cbn. lia.
  - destruct ((200 <=? status) && (status <? 300))%Z.
    + assert (Hw : fst (match JSON_parse body with
                        | Some response => (completeUpload id w, resolve (Some response) p)
                        | None => (completeUpload id w, resolve None p)
                        end) = completeUpload id w) by now destruct (JSON_parse body).
      rewrite Hw, lookup_completeUpload, Hu. cbn. eexists.
      split; [reflexivity|]. cbn. lia.
    + cbn [fst].
      match goal with
      | |- context [addAlert ?m ?s (failUpload id ?e w)] =>
          change (lookup id (addAlert m s (failUpload id e w)))
            with (lookup id (failUpload id e w))
      end.
      rewrite lookup_failUpload, Hu. cbn. eexists. split; [reflexivity|]. cbn. lia.
  - cbn [fst].
    match goal with
    | |- context [addAlert ?m ?s (failUpload id ?e w)] =>
        change (lookup id (addAlert m s (failUpload id e w)))
          with (lookup id (failUpload id e w))
    end.
    rewrite lookup_failUpload, Hu. cbn. eexists. split; [reflexivity|]. cbn. lia.
  - cbn [fst]. rewrite lookup_failUpload, Hu. cbn. eexists.
    split; [reflexivity|]. cbn. lia.
Qed.

Lemma ordered_events_forward (id : string) (evs : list XhrEvent) :
  forall (w : World) (p : Promise JsValue) (u : UploadItem.t) (k : nat),
    lookup id w = Some u ->
    rank (UploadItem.status u) <= k ->
    ordered k evs = true ->
    forall pre ev post, evs = (pre ++ ev :: post)%list ->
      exists a b,
        lookup id (fst (dispatch JsValue JSON_parse id pre (w, p))) = Some a
        /\ lookup id (fst (dispatch JsValue JSON_parse id (pre ++ [ev]) (w, p))) = Some b
        /\ forward (UploadItem.status a) (UploadItem.status b).
Proof.
  induction evs as [|e evs IH]; intros w p u k Hu Hk Hord pre ev post Heq.
  - now destruct pre.
  - cbn in Hord. apply andb_true_iff in Hord. destruct Hord as [Hph Hord].
    destruct (listener_forward id e w p u k Hu Hk Hph) as (u' & Hu' & Hle & Hle').
    destruct pre as [|e' pre]; cbn in Heq; injection Heq as <- Heq.
    + exists u, u'. cbn. now repeat split.
    + change (dispatch JsValue JSON_parse id (e :: pre) (w, p))
        with (dispatch JsValue JSON_parse id pre (listener JsValue JSON_parse id e (w, p))).
      change (dispatch JsValue JSON_parse id ((e :: pre) ++ [ev]) (w, p))
        with (dispatch JsValue JSON_parse id (pre ++ [ev])
                (listener JsValue JSON_parse id e (w, p))).
      destruct (listener JsValue JSON_parse id e (w, p)) as [w1 p1] eqn:E.
      cbn [fst] in Hu'.
      apply (IH w1 p1 u' (phase e) Hu' Hle' Hord pre ev post Heq).
Qed.

End RequestFacts.

Section Outcomes.

Context {JsValue : Type} (JSON_parse : string -> option JsValue).

Variables (w : World) (Date_now : Z) (fileName : string) (fileSize : number).
Variables (uploadId : string) (st : World * Promise JsValue).
Variable evs : list XhrEvent.

Hypothesis started :
  apiMultipartRequestWithProgress JsValue Date_now fileName fileSize w = (uploadId, st).
Hypothesis in_flight : forallb sending evs = true.

Lemma before_outcome :
  tracks uploadId fileName fileSize (fst (dispatch JsValue JSON_parse uploadId evs st))
  /\ alerts (fst (dispatch JsValue JSON_parse uploadId evs st)) = alerts w
  /\ snd (dispatch JsValue JSON_parse uploadId evs st) = None.
Proof.
  destruct (request_tracks (JsValue := JsValue) Date_now fileName fileSize w)
    as (Ht & Ha & Hp).
  rewrite started in Ht, Ha, Hp. cbn in Ht, Ha, Hp.
  destruct st as [w1 p1]. cbn in Ht, Ha, Hp. subst p1.
  destruct (sending_keeps JSON_parse uploadId fileName fileSize evs w1 None in_flight Ht)
    as (Ht' & Ha' & Hp').
  split; [exact Ht'|]. split; [congruence|exact Hp'].
Qed.

(** C2, as the code has it: a final response whose status is outside
    200..299 and whose body is not empty leaves the record of the upload
    with status Error and the body as its error, raises one alert with the
    body and severity error, and rejects the caller's promise with a plain
    [Error] whose message is the body. *)
Theorem server_failure_outcome (status : Z) (body : string) (w' : World)
    (p' : Promise JsValue) :
  (status < 200 \/ 300 <= status)%Z ->
  body <> "" ->
  dispatch JsValue JSON_parse uploadId (evs ++ [xhr_load status body]) st = (w', p') ->
  (exists u, lookup uploadId w' = Some u
             /\ UploadItem.status u = Error
             /\ UploadItem.error u = Some body
             /\ UploadItem.fileName u = fileName
             /\ UploadItem.fileSize u = fileSize)
  /\ alerts w' = (alerts w ++ [(body, "error")])%list
  /\ p' = Some (Rejected (new_Error body)).
Proof.
  intros Hstatus Hbody Hrun. rewrite dispatch_snoc in Hrun.
  destruct before_outcome as ((u & Hu & Hn & Hz) & Ha & Hp).
  destruct (dispatch JsValue JSON_parse uploadId evs st) as [w0 p0].
  cbn in Hu, Ha, Hp. subst p0.
  rewrite listener_failure in Hrun by assumption.
  injection Hrun as <- <-. split; [|split].
  - change (lookup uploadId (addAlert body "error" (failUpload uploadId body w0)))
      with (lookup uploadId (failUpload uploadId body w0)).
    rewrite lookup_failUpload, Hu. cbn. eexists. now repeat split.
  - cbn. now rewrite Ha.
  - reflexivity.
Qed.

(** C7: a final response whose status is in 200..299 makes the listener
    call [completeUpload] and then resolve the caller's promise, with the
    parsed value when the body parses and with [undefined] when it does
    not; the record is Completed and no alert is raised. *)
Theorem success_outcome (status : Z) (body : string) (w' : World)
    (p' : Promise JsValue) :
  (200 <= status < 300)%Z ->
  dispatch JsValue JSON_parse uploadId (evs ++ [xhr_load status body]) st = (w', p') ->
  w' = completeUpload uploadId (fst (dispatch JsValue JSON_parse uploadId evs st))
  /\ (exists u, lookup uploadId w' = Some u
                /\ UploadItem.status u = Completed
                /\ UploadItem.fileName u = fileName
                /\ UploadItem.fileSize u = fileSize)
  /\ alerts w' = alerts w
  /\ (forall response, JSON_parse body = Some response ->
                       p' = Some (Fulfilled (Some response)))
  /\ (JSON_parse body = None -> p' = Some (Fulfilled None)).
Proof.
  intros Hstatus Hrun. rewrite dispatch_snoc in Hrun.
  destruct before_outcome as ((u & Hu & Hn & Hz) & Ha & Hp).
  destruct (dispatch JsValue JSON_parse uploadId evs st) as [w0 p0].
  cbn in Hu, Ha, Hp |- *. subst p0.
  rewrite listener_success in Hrun by assumption.
  injection Hrun as <- <-. split; [reflexivity|]. split; [|split; [|split]].
  - rewrite lookup_completeUpload, Hu. cbn. eexists. now repeat split.
  - cbn. exact Ha.
  - now intros response ->.
  - now intros ->.
Qed.

(** C8, as the code has it: on [abort] the listener calls
    [failUpload(uploadId, "Upload cancelled")], raises no alert, and
    rejects the caller's promise with a plain [Error] whose message is
    "Upload cancelled". *)
Theorem abort_outcome (w' : World) (p' : Promise JsValue) :
  dispatch JsValue JSON_parse uploadId (evs ++ [xhr_abort]) st = (w', p') ->
  w' = failUpload uploadId "Upload cancelled"
         (fst (dispatch JsValue JSON_parse uploadId evs st))
  /\ (exists u, lookup uploadId w' = Some u
                /\ UploadItem.status u = Error
                /\ UploadItem.error u = Some "Upload cancelled"
                /\ UploadItem.fileName u = fileName
                /\ UploadItem.fileSize u = fileSize)
  /\ alerts w' = alerts w
  /\ p' = Some (Rejected (new_Error "Upload cancelled")).
Proof.
  intros Hrun. rewrite dispatch_snoc in Hrun.
  destruct before_outcome as ((u & Hu & Hn & Hz) & Ha & Hp).
  destruct (dispatch JsValue JSON_parse uploadId evs st) as [w0 p0].
  cbn in Hu, Ha, Hp |- *. subst p0. cbn in Hrun.
  injection Hrun as <- <-. split; [reflexivity|]. split; [|split].
  - rewrite lookup_failUpload, Hu. cbn. eexists. now repeat split.
  - cbn. exact Ha.
  - reflexivity.
Qed.

End Outcomes.

(** C1, as the code has it: [updateProgress(id, percent)] sets the status of
    the record that carries [id] to Uploading and its progress to [percent]
    whatever its status was, and leaves its other fields alone; that step is
    forward along the chain exactly when the record was Pending or
    Uploading.  The status of an upload moves forward only because of the
    order of the calls: along the events of one request, fired in the order
    of an [XMLHttpRequest], every listener call moves the record of that
    request forward or leaves its status as it is. *)
Theorem updateProgress_forces_Uploading :
  (forall (w : World) (id : string) (percent : number) (n : nat) (u : UploadItem.t),
      nth_error (uploads w) n = Some u ->
      UploadItem.id u = id ->
      exists u',
        nth_error (uploads (updateProgress id percent w)) n = Some u'
        /\ UploadItem.status u' = Uploading
        /\ UploadItem.progress u' = percent
        /\ UploadItem.id u' = id
        /\ UploadItem.fileName u' = UploadItem.fileName u
        /\ UploadItem.fileSize u' = UploadItem.fileSize u
        /\ UploadItem.error u' = UploadItem.error u
        /\ (forward (UploadItem.status u) (UploadItem.status u')
            <-> UploadItem.status u = Pending \/ UploadItem.status u = Uploading))
  /\ (forall (JsValue : Type) (JSON_parse : string -> option JsValue)
             (w : World) (Date_now : Z) (fileName : string) (fileSize : number)
             (uploadId : string) (st : World * Promise JsValue)
             (evs pre post : list XhrEvent) (ev : XhrEvent),
         apiMultipartRequestWithProgress JsValue Date_now fileName fileSize w
         = (uploadId, st) ->
         ordered 0 evs = true ->
         evs = (pre ++ ev :: post)%list ->
         exists a b,
           lookup uploadId (fst (dispatch JsValue JSON_parse uploadId pre st)) = Some a
           /\ lookup uploadId (fst (dispatch JsValue JSON_parse uploadId (pre ++ [ev]) st))
              = Some b
           /\ forward (UploadItem.status a) (UploadItem.status b)).
Proof.
  split.
  - intros w id percent n u Hn Hid. eexists. split.
    + unfold updateProgress, setUploads; cbn.
      apply (nth_error_amend_hit id _ _ n u Hn Hid).
    + cbn. repeat split; auto.
      * unfold forward. destruct (UploadItem.status u); cbn;
          intros [H | H]; auto; try lia; discriminate H.
      * unfold forward. intros [-> | ->]; cbn; [left; lia|now right].
  - intros JsValue JSON_parse w Date_now fileName fileSize uploadId st evs pre post ev
           Hstart Hord Heq.
    unfold apiMultipartRequestWithProgress in Hstart. cbn in Hstart.
    injection Hstart as <- <-.
    refine (ordered_events_forward JSON_parse _ evs _ None
              (UploadItem.mk _ fileName fileSize 0 Pending None) 0
              _ (le_n 0) Hord pre ev post Heq).
    unfold lookup, startUpload; cbn. now rewrite String.eqb_refl.
Qed.

Lemma updateProgress_forces_Uploading_witness :
  let w := page_after [call_setProcessing first_id] in
  let u := UploadItem.mk first_id "a.txt" 1000 100 Processing None in
  let st := snd (apiMultipartRequestWithProgress string 0 "a.txt" 1000 (initial 0)) in
  let evs := [upload_progress true 500 1000; upload_load; xhr_load 200 "{}"] in
  (nth_error (uploads w) 0 = Some u
   /\ UploadItem.id u = first_id
   /\ exists u',
        nth_error (uploads (updateProgress first_id 50 w)) 0 = Some u'
        /\ UploadItem.status u' = Uploading
        /\ UploadItem.progress u' = 50%Q)
  /\ (apiMultipartRequestWithProgress string 0 "a.txt" 1000 (initial 0) = (first_id, st)
      /\ ordered 0 evs = true
      /\ exists a b,
           lookup first_id (fst (dispatch string sample_parse first_id
                                   [upload_progress true 500 1000] st)) = Some a
           /\ lookup first_id (fst (dispatch string sample_parse first_id
                                      [upload_progress true 500 1000; upload_load] st))
              = Some b
           /\ forward (UploadItem.status a) (UploadItem.status b)).
Proof.
  cbv zeta. split.
  - split; [reflexivity|]. split; [reflexivity|].
    destruct (proj1 updateProgress_forces_Uploading
                (page_after [call_setProcessing first_id]) first_id 50%Q 0
                (UploadItem.mk first_id "a.txt" 1000 100 Processing None)
                eq_refl eq_refl) as (u' & H1 & H2 & H3 & _).
    exists u'. repeat split; assumption.
  - split; [reflexivity|]. split; [reflexivity|].
    exact (proj2 updateProgress_forces_Uploading string sample_parse
             (initial 0) 0%Z "a.txt" 1000%Q first_id _
             [upload_progress true 500 1000; upload_load; xhr_load 200 "{}"]
             [upload_progress true 500 1000] [xhr_load 200 "{}"] upload_load
             eq_refl eq_refl eq_refl).
Defined.

(** C1, as stated, fails: a record that is Processing, Completed or Error is
    moved back to Uploading by [updateProgress]. *)
Lemma updateProgress_reenters_Uploading :
  let processing := page_after [call_setProcessing first_id] in
  let completed := page_after [call_setProcessing first_id; call_completeUpload first_id] in
  let failed := page_after [call_failUpload first_id "boom"] in
  (option_map UploadItem.status (lookup first_id processing) = Some Processing
   /\ option_map UploadItem.status (lookup first_id (updateProgress first_id 50 processing))
      = Some Uploading)
  /\ (option_map UploadItem.status (lookup first_id completed) = Some Completed
      /\ option_map UploadItem.status (lookup first_id (updateProgress first_id 50 completed))
         = Some Uploading)
  /\ (option_map UploadItem.status (lookup first_id failed) = Some Error
      /\ option_map UploadItem.status (lookup first_id (updateProgress first_id 50 failed))
         = Some Uploading).
Proof. vm_compute. repeat split. Qed.

(** ** Upload ids *)

Lemma string_of_uint_dash_free (d : uint) : dash_free (NilEmpty.string_of_uint d) = true.
Proof. induction d; cbn; auto. Qed.

Lemma Number_toString_dash_free (z : Z) : (0 <= z)%Z -> dash_free (Number_toString z) = true.
Proof.
  intros Hz. unfold Number_toString. destruct z as [|p|p]; [reflexivity| |lia].
  cbn. unfold NilZero.string_of_uint.
  destruct (Pos.to_uint p); [reflexivity|apply string_of_uint_dash_free..].
Qed.

Lemma Number_toString_inj (a b : Z) : Number_toString a = Number_toString b -> a = b.
Proof.
  assert (Hparse : forall z, NilZero.int_of_string (Number_toString z) = Some (Z.to_int z)).
  { intros z. apply NilZero.isi; destruct z; cbn; try discriminate;
      intros [= H]; now apply (DecimalPos.Unsigned.to_uint_nonnil p). }
  intros H. apply DecimalZ.to_int_inj.
  pose proof (Hparse a) as Ha. rewrite H, Hparse in Ha. now injection Ha.
Qed.

(** Two texts cut at their first dash agree on what precedes it. *)
Lemma first_dash_splits (a b s t : string) :
  dash_free a = true -> dash_free b = true ->
  a ++ "-" ++ s = b ++ "-" ++ t -> a = b.
Proof.
  revert b. induction a as [|c a IH]; intros [|c' b] Ha Hb H; cbn in *.
  - reflexivity.
  - injection H as <- _. discriminate Hb.
  - injection H as -> _. discriminate Ha.
  - injection H as <- H. apply andb_true_iff in Ha, Hb.
    f_equal. apply IH; tauto.
Qed.

Lemma upload_id_counter (k1 t1 k2 t2 : Z) :
  (0 <= k1)%Z -> (0 <= k2)%Z -> upload_id k1 t1 = upload_id k2 t2 -> k1 = k2.
Proof.
  intros H1 H2 H. unfold upload_id in H. cbn in H. injection H as H.
  apply Number_toString_inj.
  apply (first_dash_splits _ _ _ _ (Number_toString_dash_free k1 H1)
           (Number_toString_dash_free k2 H2) H).
Qed.

Lemma fold_removeUpload_counter (ts : list Timer) (w : World) :
  uploadIdCounter (fold_left (fun w' t => removeUpload (target t) w') ts w)
  = uploadIdCounter w.
Proof. revert w. induction ts as [|t ts IH]; intros w; cbn; [reflexivity|now rewrite IH]. Qed.

Lemma exec_counter (o : Op) (w : World) :
  uploadIdCounter (fst (exec o w))
  = match o with
    | call_startUpload _ _ _ => pre_increment (uploadIdCounter w)
    | _ => uploadIdCounter w
    end.
Proof.
  destruct o; cbn; try reflexivity.
  unfold tick, run_due. now rewrite fold_removeUpload_counter.
Qed.

Lemma run_cons (o : Op) (ops : list Op) (w : World) :
  run (o :: ops) w
  = (fst (run ops (fst (exec o w))),
     (snd (exec o w) ++ snd (run ops (fst (exec o w))))%list).
Proof.
  cbn. destruct (exec o w) as [w1 ids1]. cbn. now destruct (run ops w1).
Qed.

Lemma exec_ids (o : Op) (w : World) :
  snd (exec o w)
  = match o with
    | call_startUpload Date_now _ _ =>
        [upload_id (pre_increment (uploadIdCounter w)) Date_now]
    | _ => []
    end.
Proof. now destruct o. Qed.

Lemma run_ids (ops : list Op) (w : World) :
  (0 <= uploadIdCounter w)%Z ->
  (uploadIdCounter w + Z.of_nat (creations ops) <= 2 ^ 53)%Z ->
  Forall (fun i => exists k t, (uploadIdCounter w < k)%Z /\ i = upload_id k t)
    (snd (run ops w))
  /\ NoDup (snd (run ops w)).
Proof.
  revert w. induction ops as [|o ops IH]; intros w H0 Hmax.
  - split; constructor.
  - rewrite run_cons. cbn [snd].
    pose proof (exec_counter o w) as Hc. pose proof (exec_ids o w) as Hi.
    specialize (IH (fst (exec o w))).
    destruct o as [t fileName fileSize| | | | | |];
      cbn [creations] in Hmax; rewrite Hi, Hc in *;
      try (destruct IH as [Hall Hnd]; [lia | lia | now split]).
    unfold pre_increment in *.
    assert (Hlt : (uploadIdCounter w <? 2 ^ 53)%Z = true) by (apply Z.ltb_lt; lia).
    rewrite Hlt in *.
    destruct IH as [Hall Hnd]; [lia | lia |]. cbn [app]. split.
    + constructor.
      * exists (uploadIdCounter w + 1)%Z, t. split; [lia|reflexivity].
      * eapply Forall_impl; [|exact Hall].
        intros i (k & t' & Hk & ->). exists k, t'. split; [lia|reflexivity].
    + constructor; [|exact Hnd].
      intros Hin. rewrite Forall_forall in Hall.
      destruct (Hall _ Hin) as (k & t' & Hk & Heq).
      apply upload_id_counter in Heq; lia.
Qed.

(** C5: [startUpload(fileName, fileSize)] puts a record with the id it
    returns, the given name and size, progress 0 and status Pending in front
    of the collection; and the ids handed out during one run of the page are
    pairwise different, as long as the counter stays exact (at most 2^53
    uploads are started). *)
Theorem startUpload_fresh_record :
  (forall w Date_now fileName fileSize,
      uploads (snd (startUpload Date_now fileName fileSize w))
      = UploadItem.mk (fst (startUpload Date_now fileName fileSize w))
          fileName fileSize 0 Pending None
        :: uploads w)
  /\ (forall now ops,
         (Z.of_nat (creations ops) <= 2 ^ 53)%Z ->
         NoDup (snd (run ops (initial now)))).
Proof.
  split; [reflexivity|].
  intros now ops Hmax. apply run_ids; cbn; lia.
Qed.

Lemma startUpload_fresh_record_witness :
  let ops := [call_startUpload 1700000000000 "a.txt" 1000;
              call_startUpload 1700000000000 "b.txt" 20;
              call_removeUpload "upload-1-1700000000000";
              call_startUpload 1700000000000 "a.txt" 1000] in
  (Z.of_nat (creations ops) <= 2 ^ 53)%Z
  /\ NoDup (snd (run ops (initial 0)))
  /\ snd (run ops (initial 0))
     = ["upload-1-1700000000000"; "upload-2-1700000000000"; "upload-3-1700000000000"].
Proof.
  cbv zeta. split; [cbn; lia|]. split; [|reflexivity].
  apply (proj2 startUpload_fresh_record); cbn; lia.
Defined.

(** ** Timers *)

Lemma In_fold_removeUpload (ts : list Timer) (w : World) (u : UploadItem.t) :
  In u (uploads (fold_left (fun w' t => removeUpload (target t) w') ts w))
  <-> In u (uploads w) /\ Forall (fun t => UploadItem.id u <> target t) ts.
Proof.
  revert w. induction ts as [|t ts IH]; intros w; cbn.
  - split; [intros H; split; [exact H|constructor]|tauto].
  - rewrite IH, In_removeUpload. split.
    + intros [[Hin Hid] Hall]. split; [exact Hin|now constructor].
    + intros [Hin Hall]. inversion Hall; subst. tauto.
Qed.

Lemma fold_removeUpload_clock (ts : list Timer) (w : World) :
  clock (fold_left (fun w' t => removeUpload (target t) w') ts w) = clock w.
Proof. revert w. induction ts as [|t ts IH]; intros w; cbn; [reflexivity|now rewrite IH]. Qed.

Lemma fold_removeUpload_timers (ts : list Timer) (w : World) :
  timers (fold_left (fun w' t => removeUpload (target t) w') ts w) = timers w.
Proof. revert w. induction ts as [|t ts IH]; intros w; cbn; [reflexivity|now rewrite IH]. Qed.

Lemma In_tick (dt : N) (w : World) (u : UploadItem.t) :
  In u (uploads (tick dt w))
  <-> In u (uploads w)
      /\ forall t, In t (timers w) -> (due t <= clock w + dt)%N -> UploadItem.id u <> target t.
Proof.
  unfold tick, run_due. rewrite In_fold_removeUpload. cbn.
  rewrite Forall_forall. split; intros [Hin H]; (split; [exact Hin|]).
  - intros t Ht Hdue. apply H. apply filter_In. split; [exact Ht|now apply N.leb_le].
  - intros t Ht. apply filter_In in Ht. destruct Ht as [Ht Hdue].
    apply N.leb_le in Hdue. now apply H.
Qed.

Lemma exec_clock (o : Op) (w : World) :
  clock (fst (exec o w))
  = match o with
    | pass dt => (clock w + dt)%N
    | _ => clock w
    end.
Proof.
  destruct o; cbn; try reflexivity.
  unfold tick, run_due. now rewrite fold_removeUpload_clock.
Qed.

Lemma exec_timers (o : Op) (w : World) :
  timers (fst (exec o w))
  = match o with
    | call_completeUpload id => (timers w ++ [mkTimer (clock w + 3000) id])%list
    | pass dt => filter (fun t => negb (due t <=? clock w + dt)%N) (timers w)
    | _ => timers w
    end.
Proof.
  destruct o; cbn; try reflexivity.
  unfold tick, run_due. now rewrite fold_removeUpload_timers.
Qed.

Lemma contains_amend (id i : string) (f : UploadItem.t -> UploadItem.t) (w : World) :
  (forall x, UploadItem.id (f x) = UploadItem.id x) ->
  contains id (setUploads (map (amend i f)) w) <-> contains id w.
Proof.
  intros Hf. unfold contains, setUploads; cbn. split.
  - intros (u & Hu & Hid). apply in_map_iff in Hu. destruct Hu as (x & <- & Hx).
    exists x. split; [exact Hx|]. unfold amend in Hid.
    destruct (UploadItem.id x =? i); [now rewrite Hf in Hid|exact Hid].
  - intros (u & Hu & Hid). exists (amend i f u). split; [now apply in_map|].
    unfold amend. destruct (UploadItem.id u =? i); [now rewrite Hf|exact Hid].
Qed.

(** What a turn does to the presence of [id] in the snapshot. *)
Lemma exec_contains (id : string) (o : Op) (w : World) :
  contains id (fst (exec o w))
  <-> match o with
      | call_startUpload Date_now _ _ =>
          upload_id (pre_increment (uploadIdCounter w)) Date_now = id \/ contains id w
      | call_removeUpload i => contains id w /\ i <> id
      | pass dt =>
          contains id w
          /\ forall t, In t (timers w) -> (due t <= clock w + dt)%N -> target t <> id
      | _ => contains id w
      end.
Proof.
  destruct o as [t fileName fileSize|i p|i|i|i e|i|dt]; cbn [exec fst].
  - unfold contains; cbn. split.
    + intros (u & [<- | Hu] & Hid); [left; exact Hid|right; now exists u].
    + intros [Hid | (u & Hu & Hid)]; [eexists; split; [left; reflexivity|exact Hid]|].
      exists u. split; [now right|exact Hid].
  - apply contains_amend; reflexivity.
  - apply contains_amend; reflexivity.
  - apply (contains_amend id i _ w); reflexivity.
  - apply contains_amend; reflexivity.
  - unfold contains. split.
    + intros (u & Hu & Hid). apply In_removeUpload in Hu. destruct Hu as [Hu Hne].
      split; [now exists u|congruence].
    + intros [(u & Hu & Hid) Hne]. exists u. split; [|exact Hid].
      apply In_removeUpload. split; [exact Hu|congruence].
  - unfold contains. split.
    + intros (u & Hu & Hid). apply In_tick in Hu. destruct Hu as [Hu H].
      split; [now exists u|]. intros t Ht Hdue Heq. apply (H t Ht Hdue). congruence.
    + intros [(u & Hu & Hid) H]. exists u. split; [|exact Hid].
      apply In_tick. split; [exact Hu|]. intros t Ht Hdue Heq.
      apply (H t Ht Hdue). congruence.
Qed.

Section Removal.

Variable id : string.
(** The time at which the removal of [id] comes due. *)
Variable T : N.



End Removal.



(** ** The request on a sample page *)

Lemma server_failure_outcome_witness :
  let evs := [upload_progress true 500 1000; upload_progress true 1000 1000; upload_load] in
  let st := snd (apiMultipartRequestWithProgress string 0 "a.txt" 1000 (initial 0)) in
  let out := dispatch string sample_parse first_id (evs ++ [xhr_load 500 "disk full"]) st in
  apiMultipartRequestWithProgress string 0 "a.txt" 1000 (initial 0) = (first_id, st)
  /\ forallb sending evs = true
  /\ (500 < 200 \/ 300 <= 500)%Z
  /\ "disk full" <> ""
  /\ (exists u, lookup first_id (fst out) = Some u
                /\ UploadItem.status u = Error
                /\ UploadItem.error u = Some "disk full")
  /\ alerts (fst out) = [("disk full", "error")]
  /\ snd out = Some (Rejected (new_Error "disk full")).
Proof.
  cbv zeta.
  assert (H1 : (500 < 200 \/ 300 <= 500)%Z) by (right; lia).
  assert (H2 : "disk full" <> "") by discriminate.
  split; [reflexivity|]. split; [reflexivity|]. split; [exact H1|]. split; [exact H2|].
  destruct (server_failure_outcome sample_parse (initial 0) 0 "a.txt" 1000 first_id _
              [upload_progress true 500 1000; upload_progress true 1000 1000; upload_load]
              eq_refl eq_refl 500 "disk full" _ _ H1 H2 (surjective_pairing _))
    as ((u & Hu & Hs & He & _) & Ha & Hp).
  split; [now exists u|]. split; [exact Ha|exact Hp].
Defined.

(** C2, as stated, fails on its last part: the promise is rejected with
    [new Error("disk full")], whose only contents are the name "Error" and
    the body, and which is the same value when the status is 503: the status
    is not carried. *)
Lemma server_failure_carries_no_status :
  let st := snd (apiMultipartRequestWithProgress string 0 "a.txt" 1000 (initial 0)) in
  let outcome status :=
    snd (dispatch string sample_parse first_id [upload_load; xhr_load status "disk full"] st) in
  outcome 500%Z = Some (Rejected {| name := "Error"; message := "disk full" |})
  /\ outcome 503%Z = outcome 500%Z.
Proof. vm_compute. split; reflexivity. Qed.

Lemma success_outcome_witness :
  let evs := [upload_progress true 1000 1000; upload_load] in
  let st := snd (apiMultipartRequestWithProgress string 0 "a.txt" 1000 (initial 0)) in
  let parsed := dispatch string sample_parse first_id (evs ++ [xhr_load 201 "{}"]) st in
  let unparsed := dispatch string sample_parse first_id (evs ++ [xhr_load 200 "OK"]) st in
  apiMultipartRequestWithProgress string 0 "a.txt" 1000 (initial 0) = (first_id, st)
  /\ forallb sending evs = true
  /\ (200 <= 201 < 300)%Z
  /\ (200 <= 200 < 300)%Z
  /\ snd parsed = Some (Fulfilled (Some "{}"))
  /\ (snd unparsed = Some (Fulfilled None) /\ alerts (fst unparsed) = []).
Proof.
  cbv zeta.
  assert (H1 : (200 <= 201 < 300)%Z) by lia.
  assert (H2 : (200 <= 200 < 300)%Z) by lia.
  split; [reflexivity|]. split; [reflexivity|]. split; [exact H1|]. split; [exact H2|].
  split.
  - destruct (success_outcome sample_parse (initial 0) 0 "a.txt" 1000 first_id _
                [upload_progress true 1000 1000; upload_load]
                eq_refl eq_refl 201 "{}" _ _ H1 (surjective_pairing _))
      as (_ & _ & _ & Hp & _).
    now apply Hp.
  - destruct (success_outcome sample_parse (initial 0) 0 "a.txt" 1000 first_id _
                [upload_progress true 1000 1000; upload_load]
                eq_refl eq_refl 200 "OK" _ _ H2 (surjective_pairing _))
      as (_ & _ & Ha & _ & Hp).
    split; [now apply Hp|exact Ha].
Defined.

Lemma abort_outcome_witness :
  let evs := [upload_progress true 400 1000] in
  let st := snd (apiMultipartRequestWithProgress string 0 "a.txt" 1000 (initial 0)) in
  let out := dispatch string sample_parse first_id (evs ++ [xhr_abort]) st in
  apiMultipartRequestWithProgress string 0 "a.txt" 1000 (initial 0) = (first_id, st)
  /\ forallb sending evs = true
  /\ (exists u, lookup first_id (fst out) = Some u
                /\ UploadItem.status u = Error
                /\ UploadItem.error u = Some "Upload cancelled")
  /\ alerts (fst out) = []
  /\ snd out = Some (Rejected (new_Error "Upload cancelled")).
Proof.
  cbv zeta. split; [reflexivity|]. split; [reflexivity|].
  destruct (abort_outcome sample_parse (initial 0) 0 "a.txt" 1000 first_id _
              [upload_progress true 400 1000] eq_refl eq_refl _ _ (surjective_pairing _))
    as (_ & (u & Hu & Hs & He & _) & Ha & Hp).
  split; [now exists u|]. split; [exact Ha|exact Hp].
Defined.

(** C8, as stated, fails: the message recorded on [abort] is
    "Upload cancelled", not "cancelled", and the promise is rejected with a
    plain [Error], the same value a response 500 with that body gives. *)
Lemma abort_message_is_Upload_cancelled :
  let st := snd (apiMultipartRequestWithProgress string 0 "a.txt" 1000 (initial 0)) in
  let aborted := dispatch string sample_parse first_id [xhr_abort] st in
  let refused := dispatch string sample_parse first_id [xhr_load 500 "Upload cancelled"] st in
  option_map UploadItem.error (lookup first_id (fst aborted)) = Some (Some "Upload cancelled")
  /\ option_map UploadItem.error (lookup first_id (fst aborted)) <> Some (Some "cancelled")
  /\ snd aborted = Some (Rejected {| name := "Error"; message := "Upload cancelled" |})
  /\ snd aborted = snd refused.
Proof. vm_compute. repeat split. discriminate. Qed.

(** ** The store beyond the addressed record *)

Lemma map_key_amend (i : string) (f : UploadItem.t -> UploadItem.t) (l : list UploadItem.t) :
  (forall x, key (f x) = key x) -> map key (map (amend i f) l) = map key l.
Proof.
  intros Hf. rewrite map_map. apply map_ext. intros u. unfold amend.
  now destruct (UploadItem.id u =? i).
Qed.

(** X1: [updateProgress], [setProcessing], [completeUpload] and [failUpload]
    keep the collection's length and order and, record by record, the id,
    the file name and the file size. *)
Theorem status_calls_keep_keys (w : World) (id : string) :
  (forall percent, map key (uploads (updateProgress id percent w)) = map key (uploads w))
  /\ map key (uploads (setProcessing id w)) = map key (uploads w)
  /\ map key (uploads (completeUpload id w)) = map key (uploads w)
  /\ (forall message, map key (uploads (failUpload id message w)) = map key (uploads w)).
Proof.
  split; [intros percent|split; [|split; [|intros message]]];
    unfold updateProgress, setProcessing, completeUpload, failUpload, setTimeout, setUploads;
    cbn; apply (map_key_amend id); reflexivity.
Qed.

(** X2: a call addressed to [id] leaves every record with another id as it
    is and where it is; [removeUpload(id)] keeps those records, in order. *)
Theorem other_records_untouched
    (w : World) (id : string) (n : nat) (u : UploadItem.t) :
  nth_error (uploads w) n = Some u ->
  UploadItem.id u <> id ->
  (forall percent, nth_error (uploads (updateProgress id percent w)) n = Some u)
  /\ nth_error (uploads (setProcessing id w)) n = Some u
  /\ nth_error (uploads (completeUpload id w)) n = Some u
  /\ (forall message, nth_error (uploads (failUpload id message w)) n = Some u)
  /\ In u (uploads (removeUpload id w)).
Proof.
  intros Hn Hid.
  assert (H : forall f, nth_error (map (amend id f) (uploads w)) n = Some u).
  { intros f. rewrite nth_error_map, Hn. cbn. unfold amend.
    apply String.eqb_neq in Hid. now rewrite Hid. }
  split; [intros percent; apply H|]. split; [apply H|]. split; [apply H|].
  split; [intros message; apply H|].
  apply In_removeUpload. split; [now apply nth_error_In in Hn|exact Hid].
Qed.

Lemma other_records_untouched_witness :
  let w := fst (run [call_startUpload 0 "a.txt" 1000; call_startUpload 5 "b.txt" 20]
                  (initial 0)) in
  let u := UploadItem.mk "upload-1-0" "a.txt" 1000 0 Pending None in
  nth_error (uploads w) 1 = Some u
  /\ UploadItem.id u <> "upload-2-5"
  /\ nth_error (uploads (failUpload "upload-2-5" "boom" w)) 1 = Some u
  /\ In u (uploads (removeUpload "upload-2-5" w)).
Proof.
  cbv zeta.
  assert (Hne : "upload-1-0" <> "upload-2-5") by discriminate.
  split; [reflexivity|]. split; [exact Hne|].
  destruct (other_records_untouched
              (fst (run [call_startUpload 0 "a.txt" 1000; call_startUpload 5 "b.txt" 20]
                      (initial 0)))
              "upload-2-5" 1 (UploadItem.mk "upload-1-0" "a.txt" 1000 0 Pending None)
              eq_refl Hne) as (_ & _ & _ & Hf & Hr).
  split; [apply Hf|exact Hr].
Defined.

Lemma amend_amend (i j : string) (f g : UploadItem.t -> UploadItem.t) (l : list UploadItem.t) :
  i <> j ->
  (forall x, UploadItem.id (f x) = UploadItem.id x) ->
  (forall x, UploadItem.id (g x) = UploadItem.id x) ->
  map (amend i f) (map (amend j g) l) = map (amend j g) (map (amend i f) l).
Proof.
  intros Hij Hf Hg. rewrite !map_map. apply map_ext. intros u. unfold amend.
  destruct (UploadItem.id u =? j) eqn:Ej, (UploadItem.id u =? i) eqn:Ei;
    rewrite ?Hf, ?Hg, ?Ej, ?Ei; try reflexivity.
  apply String.eqb_eq in Ej, Ei. congruence.
Qed.

Lemma filter_amend (i j : string) (f : UploadItem.t -> UploadItem.t) (l : list UploadItem.t) :
  (forall x, UploadItem.id (f x) = UploadItem.id x) ->
  filter (fun u => negb (UploadItem.id u =? j)) (map (amend i f) l)
  = map (amend i f) (filter (fun u => negb (UploadItem.id u =? j)) l).
Proof.
  intros Hf. induction l as [|a l IH]; cbn; [reflexivity|].
  assert (Hid : UploadItem.id (amend i f a) = UploadItem.id a)
    by (unfold amend; destruct (UploadItem.id a =? i); [apply Hf|reflexivity]).
  rewrite Hid. destruct (UploadItem.id a =? j); cbn; now rewrite IH.
Qed.

Lemma filter_filter (A : Type) (p q : A -> bool) (l : list A) :
  filter p (filter q l) = filter q (filter p l).
Proof.
  induction l as [|a l IH]; cbn; [reflexivity|].
  destruct (q a) eqn:Eq, (p a) eqn:Ep; cbn; rewrite ?Eq, ?Ep, IH; reflexivity.
Qed.

(** X3: two calls of the store addressed to different ids give the same
    collection in either order. *)
Theorem calls_on_different_ids_commute (o1 o2 : Op) (i j : string) (w : World) :
  addressee o1 = Some i ->
  addressee o2 = Some j ->
  i <> j ->
  uploads (fst (exec o1 (fst (exec o2 w)))) = uploads (fst (exec o2 (fst (exec o1 w)))).
Proof.
  intros H1 H2 Hij.
  assert (Hji : j <> i) by congruence.
  destruct o1; try discriminate H1; injection H1 as ->;
    destruct o2; try discriminate H2; injection H2 as ->;
    cbn;
    first [ apply (amend_amend i j); [exact Hij|reflexivity|reflexivity]
          | apply filter_amend; reflexivity
          | symmetry; apply filter_amend; reflexivity
          | apply filter_filter ].
Qed.

Lemma calls_on_different_ids_commute_witness :
  let w := fst (run [call_startUpload 0 "a.txt" 1000; call_startUpload 5 "b.txt" 20]
                  (initial 0)) in
  addressee (call_updateProgress "upload-1-0" 30) = Some "upload-1-0"
  /\ addressee (call_failUpload "upload-2-5" "boom") = Some "upload-2-5"
  /\ "upload-1-0" <> "upload-2-5"
  /\ uploads (updateProgress "upload-1-0" 30 (failUpload "upload-2-5" "boom" w))
     = uploads (failUpload "upload-2-5" "boom" (updateProgress "upload-1-0" 30 w)).
Proof.
  cbv zeta.
  assert (Hne : "upload-1-0" <> "upload-2-5") by discriminate.
  split; [reflexivity|]. split; [reflexivity|]. split; [exact Hne|].
  exact (calls_on_different_ids_commute
           (call_updateProgress "upload-1-0" 30) (call_failUpload "upload-2-5" "boom")
           "upload-1-0" "upload-2-5" _ eq_refl eq_refl Hne).
Defined.

(** ** Pages reached by a run *)

Lemma run_invariant (P : World -> Prop) :
  (forall o w, P w -> P (fst (exec o w))) ->
  forall ops w, P w -> P (fst (run ops w)).
Proof.
  intros Hstep. induction ops as [|o ops IH]; intros w Hw; [exact Hw|].
  rewrite run_cons. cbn [fst]. apply IH, Hstep, Hw.
Qed.

(** What holds of the collection and survives dropping records survives the
    timers that fire. *)
Lemma fold_removeUpload_keeps (P : list UploadItem.t -> Prop) (ts : list Timer) (w : World) :
  (forall i l, P l -> P (filter (fun u => negb (UploadItem.id u =? i)) l)) ->
  P (uploads w) ->
  P (uploads (fold_left (fun w' t => removeUpload (target t) w') ts w)).
Proof.
  intros Hf. revert w. induction ts as [|t ts IH]; intros w Hw; cbn; [exact Hw|].
  apply IH. cbn. now apply Hf.
Qed.

Lemma exec_coherent (o : Op) (w : World) :
  Forall coherent (uploads w) -> Forall coherent (uploads (fst (exec o w))).
Proof.
  assert (Hdrop : forall i l, Forall coherent l ->
                    Forall coherent (filter (fun u => negb (UploadItem.id u =? i)) l)).
  { intros i l Hl. apply Forall_forall. intros u Hu. apply filter_In in Hu.
    rewrite Forall_forall in Hl. now apply Hl. }
  assert (Hmap : forall i f l,
             (forall x, coherent x -> coherent (f x)) ->
             Forall coherent l -> Forall coherent (map (amend i f) l)).
  { intros i f l Hf Hl. apply Forall_map. eapply Forall_impl; [|exact Hl].
    intros u Hu. unfold amend. destruct (UploadItem.id u =? i); auto. }
  intros Hw. destruct o as [t fileName fileSize|i p|i|i|i e|i|dt]; cbn [exec fst].
  - cbn. constructor; [|exact Hw]. unfold coherent; cbn.
    repeat split; auto; discriminate.
  - apply Hmap; [|exact Hw]. intros x _. unfold coherent; cbn.
    repeat split; discriminate.
  - apply Hmap; [|exact Hw]. intros x _. unfold coherent; cbn.
    repeat split; auto; discriminate.
  - unfold completeUpload, setTimeout, setUploads; cbn.
    apply Hmap; [|exact Hw]. intros x _. unfold coherent; cbn.
    repeat split; discriminate.
  - apply Hmap; [|exact Hw]. intros x _. unfold coherent; cbn.
    repeat split; discriminate.
  - now apply Hdrop.
  - unfold tick, run_due. now apply fold_removeUpload_keeps.
Qed.

(** X4: on every page a run reaches, a Pending record has progress 0 and no
    error, a Processing record has progress 100, and an Error record has an
    error message. *)
Theorem reached_records_coherent (now : N) (ops : list Op) :
  Forall coherent (uploads (fst (run ops (initial now)))).
Proof.
  apply (run_invariant (fun w => Forall coherent (uploads w))).
  - apply exec_coherent.
  - constructor.
Qed.

Lemma NoDup_map_filter (A B : Type) (g : A -> B) (p : A -> bool) (l : list A) :
  NoDup (map g l) -> NoDup (map g (filter p l)).
Proof.
  induction l as [|a l IH]; cbn; intros H; [constructor|].
  inversion H as [|x xs Hnotin Hnd]; subst.
  destruct (p a); cbn; [|now apply IH].
  constructor; [|now apply IH].
  intros Hin. apply Hnotin. apply in_map_iff in Hin. destruct Hin as (x & Hx & Hin).
  apply in_map_iff. exists x. split; [exact Hx|]. now apply filter_In in Hin.
Qed.

(** The four status calls map one record-wise change, which keeps the
    key, over the collection. *)
Lemma exec_amends (o : Op) (i : string) (w : World) :
  addressee o = Some i ->
  removes i o = false ->
  exists f, (forall x, key (f x) = key x)
            /\ uploads (fst (exec o w)) = map (amend i f) (uploads w).
Proof.
  intros Ha Hr.
  destruct o as [t fileName fileSize|j p|j|j|j e|j|dt]; try discriminate Ha;
    injection Ha as ->; cbn [exec fst].
  - eexists. split; [|reflexivity]. reflexivity.
  - eexists. split; [|reflexivity]. reflexivity.
  - eexists. split; [|reflexivity]. reflexivity.
  - eexists. split; [|reflexivity]. reflexivity.
  - cbn in Hr. now rewrite String.eqb_refl in Hr.
Qed.

Lemma key_id (f : UploadItem.t -> UploadItem.t) :
  (forall x, key (f x) = key x) -> forall x, UploadItem.id (f x) = UploadItem.id x.
Proof. intros Hf x. specialize (Hf x). unfold key in Hf. congruence. Qed.

Lemma startUpload_exact (t : Z) (fileName : string) (fileSize : number) (w : World) :
  (uploadIdCounter w < 2 ^ 53)%Z ->
  startUpload t fileName fileSize w
  = (upload_id (uploadIdCounter w + 1) t,
     {| uploadIdCounter := uploadIdCounter w + 1;
        uploads := UploadItem.mk (upload_id (uploadIdCounter w + 1) t)
                     fileName fileSize 0 Pending None :: uploads w;
        clock := clock w;
        timers := timers w;
        alerts := alerts w |}).
Proof.
  intros Hlt. apply Z.ltb_lt in Hlt. unfold startUpload, pre_increment, upload_id.
  now rewrite Hlt.
Qed.

Lemma exec_keyed (o : Op) (w : World) :
  (uploadIdCounter w + Z.of_nat (creations [o]) <= 2 ^ 53)%Z ->
  keyed w -> keyed (fst (exec o w)).
Proof.
  intros Hmax (H0 & Hnd & Hall).
  assert (Hmapid : forall i f l,
             (forall x, UploadItem.id (f x) = UploadItem.id x) ->
             map UploadItem.id (map (amend i f) l) = map UploadItem.id l).
  { intros i f l Hf. rewrite map_map. apply map_ext. intros u. unfold amend.
    destruct (UploadItem.id u =? i); [apply Hf|reflexivity]. }
  assert (Hallmap : forall i f,
             (forall x, UploadItem.id (f x) = UploadItem.id x) ->
             Forall (issued w) (map (amend i f) (uploads w))).
  { intros i f Hf. apply Forall_map. eapply Forall_impl; [|exact Hall].
    intros u Hu. unfold amend. destruct (UploadItem.id u =? i); [|exact Hu].
    unfold issued in *. now rewrite Hf. }
  assert (Hdrop : forall i l,
             NoDup (map UploadItem.id l) /\ Forall (issued w) l ->
             NoDup (map UploadItem.id (filter (fun u => negb (UploadItem.id u =? i)) l))
             /\ Forall (issued w) (filter (fun u => negb (UploadItem.id u =? i)) l)).
  { intros i l [Hn Ha]. split; [now apply NoDup_map_filter|].
    apply Forall_forall. intros u Hu. apply filter_In in Hu.
    rewrite Forall_forall in Ha. now apply Ha. }
  assert (Hsame : forall w', uploadIdCounter w' = uploadIdCounter w ->
                             forall l, Forall (issued w) l -> Forall (issued w') l).
  { intros w' Hc l Hl. eapply Forall_impl; [|exact Hl].
    intros u (k & t & Hk & Hid). exists k, t. split; [lia|exact Hid]. }
  pose proof (exec_counter o w) as Hc.
  destruct (addressee o) as [i|] eqn:Ha.
  - assert (Hsamec : uploadIdCounter (fst (exec o w)) = uploadIdCounter w)
      by (rewrite Hc; destruct o; try reflexivity; discriminate Ha).
    unfold keyed. rewrite Hsamec. split; [exact H0|].
    destruct (removes i o) eqn:Hr.
    + destruct o; try discriminate Hr. cbn in Ha. injection Ha as ->.
      destruct (Hdrop i (uploads w) (conj Hnd Hall)) as [Hn Ha].
      split; [exact Hn|]. apply (Hsame _ Hsamec). exact Ha.
    + destruct (exec_amends o i w Ha Hr) as (f & Hf & ->).
      rewrite (Hmapid i f _ (key_id f Hf)). split; [exact Hnd|].
      apply (Hsame _ Hsamec). exact (Hallmap i f (key_id f Hf)).
  - destruct o as [t fileName fileSize|i p|i|i|i e|i|dt]; try discriminate Ha;
      unfold keyed; cbn [creations] in Hmax.
    + clear Hc. cbn [exec]. rewrite startUpload_exact by lia. cbn. split; [lia|]. split.
      * constructor; [|exact Hnd]. intros Hin. apply in_map_iff in Hin.
        destruct Hin as (u & Hu & Hin). rewrite Forall_forall in Hall.
        destruct (Hall u Hin) as (k & t' & Hk & Hid). rewrite Hid in Hu.
        apply upload_id_counter in Hu; lia.
      * constructor.
        -- exists (uploadIdCounter w + 1)%Z, t. cbn. split; [lia|reflexivity].
        -- eapply Forall_impl; [|exact Hall]. intros u (k & t' & Hk & Hid).
           exists k, t'. cbn. split; [lia|exact Hid].
    + rewrite Hc. split; [exact H0|].
      assert (Hboth : NoDup (map UploadItem.id (uploads (fst (exec (pass dt) w))))
                      /\ Forall (issued w) (uploads (fst (exec (pass dt) w)))).
      { cbn [exec fst]. unfold tick, run_due.
        apply (fold_removeUpload_keeps
                 (fun l => NoDup (map UploadItem.id l) /\ Forall (issued w) l));
          [exact Hdrop|now split]. }
      destruct Hboth as [Hn Ha']. split; [exact Hn|]. apply (Hsame _ Hc). exact Ha'.
Qed.

Lemma run_keyed (ops : list Op) (w : World) :
  (uploadIdCounter w + Z.of_nat (creations ops) <= 2 ^ 53)%Z ->
  keyed w -> keyed (fst (run ops w)).
Proof.
  revert w. induction ops as [|o ops IH]; intros w Hmax Hw; [exact Hw|].
  rewrite run_cons. cbn [fst].
  assert (Hsplit : creations (o :: ops) = creations [o] + creations ops)
    by (destruct o; reflexivity).
  rewrite Hsplit in Hmax.
  assert (Hc : (uploadIdCounter (fst (exec o w))
                <= uploadIdCounter w + Z.of_nat (creations [o]))%Z).
  { rewrite exec_counter. destruct Hw as (H0 & _).
    destruct o; cbn [creations]; try lia. unfold pre_increment.
    destruct (uploadIdCounter w <? 2 ^ 53)%Z; lia. }
  apply IH; [lia|]. apply exec_keyed; [lia|exact Hw].
Qed.

(** X5: on every page a run reaches, no two records carry the same id, as
    long as the counter stays exact (at most 2^53 uploads are started). *)
Theorem reached_ids_unique (now : N) (ops : list Op) :
  (Z.of_nat (creations ops) <= 2 ^ 53)%Z ->
  NoDup (map UploadItem.id (uploads (fst (run ops (initial now))))).
Proof.
  intros Hmax. apply (run_keyed ops (initial now)); [cbn; lia|].
  split; [cbn; lia|]. split; constructor.
Qed.

Lemma reached_ids_unique_witness :
  let ops := [call_startUpload 7 "a.txt" 1000; call_startUpload 7 "a.txt" 1000;
              call_updateProgress "upload-1-7" 50; call_startUpload 7 "a.txt" 1000] in
  (Z.of_nat (creations ops) <= 2 ^ 53)%Z
  /\ NoDup (map UploadItem.id (uploads (fst (run ops (initial 0)))))
  /\ map UploadItem.id (uploads (fst (run ops (initial 0))))
     = ["upload-3-7"; "upload-2-7"; "upload-1-7"].
Proof.
  cbv zeta. split; [cbn; lia|]. split; [|reflexivity].
  apply (reached_ids_unique 0); cbn; lia.
Defined.

Lemma subseq_refl (A : Type) (l : list A) : subseq l l.
Proof. induction l; constructor; assumption. Qed.

Lemma subseq_trans (A : Type) (a b c : list A) : subseq a b -> subseq b c -> subseq a c.
Proof.
  intros Hab Hbc. revert a Hab. induction Hbc as [|x b c Hbc IH|x b c Hbc IH]; intros a Hab.
  - exact Hab.
  - constructor. now apply IH.
  - inversion Hab; subst; constructor; now apply IH.
Qed.

Lemma subseq_app_same (A : Type) (p a b : list A) : subseq a b -> subseq (p ++ a) (p ++ b).
Proof. intros H. induction p; cbn; [exact H|now constructor]. Qed.

Lemma subseq_map_filter (A B : Type) (g : A -> B) (p : A -> bool) (l : list A) :
  subseq (map g (filter p l)) (map g l).
Proof. induction l as [|a l IH]; cbn; [constructor|]. destruct (p a); now constructor. Qed.

Lemma exec_order (o : Op) (w : World) :
  subseq (map UploadItem.id (uploads (fst (exec o w))))
    (List.rev (snd (exec o w)) ++ map UploadItem.id (uploads w)).
Proof.
  destruct (addressee o) as [i|] eqn:Ha.
  - assert (Hids : snd (exec o w) = []) by (destruct o; try reflexivity; discriminate Ha).
    rewrite Hids. cbn [List.rev app]. destruct (removes i o) eqn:Hr.
    + destruct o; try discriminate Hr. apply subseq_map_filter.
    + destruct (exec_amends o i w Ha Hr) as (f & Hf & ->).
      rewrite map_map.
      rewrite (map_ext (fun u => UploadItem.id (amend i f u)) UploadItem.id);
        [apply subseq_refl|].
      intros u. unfold amend. destruct (UploadItem.id u =? i); [|reflexivity].
      now apply key_id.
  - destruct o as [t fileName fileSize|i p|i|i|i e|i|dt]; try discriminate Ha.
    + cbn. apply subseq_refl.
    + cbn [exec fst snd List.rev app]. unfold tick, run_due.
      apply (fold_removeUpload_keeps
               (fun l => subseq (map UploadItem.id l) (map UploadItem.id (uploads w)))).
      * intros i l Hl. eapply subseq_trans; [apply subseq_map_filter|exact Hl].
      * apply subseq_refl.
Qed.

Lemma run_order (ops : list Op) (w : World) :
  subseq (map UploadItem.id (uploads (fst (run ops w))))
    (List.rev (snd (run ops w)) ++ map UploadItem.id (uploads w)).
Proof.
  revert w. induction ops as [|o ops IH]; intros w; [apply subseq_refl|].
  rewrite run_cons. cbn [fst snd]. rewrite List.rev_app_distr, <- app_assoc.
  eapply subseq_trans; [apply IH|]. apply subseq_app_same, exec_order.
Qed.

(** An id handed out during a run is on the page at its end, unless a
    turn of the run removes or completes it. *)
Lemma run_keeps_issued (i : string) (ops : list Op) (w : World) :
  (forall t, In t (timers w) -> target t <> i) ->
  forallb (fun o => negb (discards i o)) ops = true ->
  ((contains i w \/ In i (snd (run ops w))) -> contains i (fst (run ops w)))
  /\ (forall t, In t (timers (fst (run ops w))) -> target t <> i).
Proof.
  revert w. induction ops as [|o ops IH]; intros w Htim Hops.
  - split; [intros [H | []]; exact H|exact Htim].
  - rewrite run_cons. cbn [fst snd].
    cbn [forallb] in Hops. apply andb_true_iff in Hops. destruct Hops as [Ho Hops].
    apply negb_true_iff in Ho.
    pose proof (exec_timers o w) as Ht. pose proof (exec_contains i o w) as Hk.
    pose proof (exec_ids o w) as Hi.
    assert (Htim1 : forall t, In t (timers (fst (exec o w))) -> target t <> i).
    { rewrite Ht. destruct o as [t fileName fileSize|j p|j|j|j e|j|dt]; try exact Htim.
      - intros t Hti. apply in_app_iff in Hti.
        destruct Hti as [Hti | [<- | []]]; [now apply Htim|].
        cbn in *. now apply String.eqb_neq.
      - intros t Hti. apply filter_In in Hti. now apply Htim. }
    destruct (IH (fst (exec o w)) Htim1 Hops) as [Hkeep Hno].
    split; [|exact Hno].
    intros Hin. apply Hkeep. rewrite in_app_iff in Hin.
    destruct Hin as [Hin | [Hin | Hin]]; [| |now right]; left; apply Hk.
    + destruct o as [t fileName fileSize|j p|j|j|j e|j|dt]; try tauto.
      * split; [exact Hin|]. cbn in Ho. now apply String.eqb_neq.
      * split; [exact Hin|]. intros t Hti _. now apply Htim.
    + rewrite Hi in Hin.
      destruct o as [t fileName fileSize|j p|j|j|j e|j|dt]; try (now destruct Hin).
      destruct Hin as [Hin | []]. now left.
Qed.

(** X6: the snapshot lists the uploads newest first: on every page a run
    reaches, the ids of the collection are ids handed out, in the order
    latest first, and every id handed out is among them unless a turn of
    the run removed or completed it. *)
Theorem snapshot_newest_first (now : N) (ops : list Op) :
  subseq (map UploadItem.id (uploads (fst (run ops (initial now)))))
    (List.rev (snd (run ops (initial now))))
  /\ (forall i,
        In i (snd (run ops (initial now))) ->
        forallb (fun o => negb (discards i o)) ops = true ->
        In i (map UploadItem.id (uploads (fst (run ops (initial now)))))).
Proof.
  split.
  - pose proof (run_order ops (initial now)) as H. cbn [initial uploads map] in H.
    now rewrite app_nil_r in H.
  - intros i Hin Hops.
    destruct (run_keeps_issued i ops (initial now)) as [Hkeep _];
      [intros t []|exact Hops|].
    destruct (Hkeep (or_intror Hin)) as (u & Hu & Hid).
    apply in_map_iff. exists u. now split.
Qed.

Lemma snapshot_newest_first_witness :
  let ops := [call_startUpload 0 "a.txt" 1000; call_startUpload 0 "b.txt" 20;
              call_removeUpload "upload-1-0"; call_startUpload 0 "c.txt" 3;
              call_failUpload "upload-2-0" "boom"; pass 5000] in
  snd (run ops (initial 0)) = ["upload-1-0"; "upload-2-0"; "upload-3-0"]
  /\ map UploadItem.id (uploads (fst (run ops (initial 0)))) = ["upload-3-0"; "upload-2-0"]
  /\ In "upload-2-0" (snd (run ops (initial 0)))
  /\ forallb (fun o => negb (discards "upload-2-0" o)) ops = true
  /\ In "upload-2-0" (map UploadItem.id (uploads (fst (run ops (initial 0))))).
Proof.
  cbv zeta. split; [reflexivity|]. split; [reflexivity|].
  assert (Hin : In "upload-2-0"
                  (snd (run [call_startUpload 0 "a.txt" 1000; call_startUpload 0 "b.txt" 20;
                             call_removeUpload "upload-1-0"; call_startUpload 0 "c.txt" 3;
                             call_failUpload "upload-2-0" "boom"; pass 5000] (initial 0))))
    by (right; left; reflexivity).
  split; [exact Hin|]. split; [reflexivity|].
  exact (proj2 (snapshot_newest_first 0
                  [call_startUpload 0 "a.txt" 1000; call_startUpload 0 "b.txt" 20;
                   call_removeUpload "upload-1-0"; call_startUpload 0 "c.txt" 3;
                   call_failUpload "upload-2-0" "boom"; pass 5000])
           "upload-2-0" Hin eq_refl).
Defined.

(** ** Timers on reached pages *)

Lemma exec_timely (o : Op) (w : World) :
  Forall (fun t => (clock w < due t <= clock w + 3000)%N) (timers w) ->
  Forall (fun t => (clock (fst (exec o w)) < due t <= clock (fst (exec o w)) + 3000)%N)
    (timers (fst (exec o w))).
Proof.
  intros H. rewrite exec_clock, exec_timers.
  destruct o as [t fileName fileSize|i p|i|i|i e|i|dt]; try exact H.
  - apply Forall_app. split; [exact H|]. constructor; [cbn; lia|constructor].
  - apply Forall_forall. intros t Ht. apply filter_In in Ht. destruct Ht as [Ht Hdue].
    apply negb_true_iff, N.leb_gt in Hdue. rewrite Forall_forall in H.
    specialize (H t Ht). lia.
Qed.

Lemma reached_timely (now : N) (ops : list Op) :
  Forall (fun t => (clock (fst (run ops (initial now))) < due t
                    <= clock (fst (run ops (initial now))) + 3000)%N)
    (timers (fst (run ops (initial now)))).
Proof.
  apply (run_invariant
           (fun w => Forall (fun t => (clock w < due t <= clock w + 3000)%N) (timers w))).
  - apply exec_timely.
  - constructor.
Qed.

(** X7: on every page a run reaches, each pending timer is due later than
    now and within 3000 ms; once 3000 ms or more pass, no timer is left. *)
Theorem timers_due_within_3000 (now : N) (ops : list Op) :
  Forall (fun t => (clock (fst (run ops (initial now))) < due t
                    <= clock (fst (run ops (initial now))) + 3000)%N)
    (timers (fst (run ops (initial now))))
  /\ forall dt, (3000 <= dt)%N -> timers (tick dt (fst (run ops (initial now)))) = [].
Proof.
  pose proof (reached_timely now ops) as H.
  split; [exact H|]. intros dt Hdt.
  change (tick dt (fst (run ops (initial now))))
    with (fst (exec (pass dt) (fst (run ops (initial now))))).
  rewrite exec_timers.
  induction (timers (fst (run ops (initial now)))) as [|t ts IH]; [reflexivity|].
  inversion H as [|x xs Ht Hts]; subst. cbn.
  assert (Hdue : (due t <=? clock (fst (run ops (initial now))) + dt)%N = true)
    by (apply N.leb_le; lia).
  rewrite Hdue. cbn. now apply IH.
Qed.

Lemma In_amend (i : string) (f : UploadItem.t -> UploadItem.t) (l : list UploadItem.t)
    (u : UploadItem.t) :
  In u (map (amend i f) l) ->
  exists x, In x l
            /\ ((UploadItem.id x = i /\ u = f x) \/ (UploadItem.id x <> i /\ u = x)).
Proof.
  intros Hu. apply in_map_iff in Hu. destruct Hu as (x & Hx & Hin).
  exists x. split; [exact Hin|]. unfold amend in Hx.
  destruct (UploadItem.id x =? i) eqn:E.
  - left. apply String.eqb_eq in E. now split.
  - right. apply String.eqb_neq in E. now split.
Qed.

Lemma exec_awaited (o : Op) (w : World) : awaited w -> awaited (fst (exec o w)).
Proof.
  intros Hw u Hu Hst. pose proof (exec_timers o w) as Ht. rewrite Ht. clear Ht.
  destruct o as [t fileName fileSize|i p|i|i|i e|i|dt]; cbn [exec fst] in Hu.
  - cbn in Hu. destruct Hu as [<- | Hu]; [discriminate Hst|]. now apply Hw.
  - apply (In_amend i) in Hu.
    destruct Hu as (x & Hin & [[_ ->] | [_ ->]]); [discriminate Hst|now apply Hw].
  - apply (In_amend i) in Hu.
    destruct Hu as (x & Hin & [[_ ->] | [_ ->]]); [discriminate Hst|now apply Hw].
  - unfold completeUpload, setTimeout, setUploads in Hu. cbn in Hu.
    apply (In_amend i) in Hu. destruct Hu as (x & Hin & [[Hid ->] | [_ ->]]).
    + exists (mkTimer (clock w + 3000) i). split; [apply in_app_iff; right; now left|].
      cbn. now rewrite Hid.
    + destruct (Hw x Hin Hst) as (t & Hti & Htar). exists t.
      split; [apply in_app_iff; now left|exact Htar].
  - apply (In_amend i) in Hu.
    destruct Hu as (x & Hin & [[_ ->] | [_ ->]]); [discriminate Hst|now apply Hw].
  - apply In_removeUpload in Hu. destruct Hu as [Hu _]. now apply Hw.
  - apply In_tick in Hu. destruct Hu as [Hu Hfired].
    destruct (Hw u Hu Hst) as (t & Hti & Htar). exists t. split; [|exact Htar].
    apply filter_In. split; [exact Hti|].
    apply negb_true_iff. destruct (due t <=? clock w + dt)%N eqn:Hdue; [|reflexivity].
    apply N.leb_le in Hdue. exfalso. apply (Hfired t Hti Hdue). now symmetry.
Qed.

Lemma reached_awaited (now : N) (ops : list Op) : awaited (fst (run ops (initial now))).
Proof. apply (run_invariant awaited); [apply exec_awaited|]. intros u []. Qed.

Lemma reached_Completed_gone (now : N) (ops : list Op) (dt : N) :
  (3000 <= dt)%N ->
  Forall (fun u => UploadItem.status u <> Completed)
    (uploads (tick dt (fst (run ops (initial now))))).
Proof.
  intros Hdt. apply Forall_forall. intros u Hu Hst.
  apply In_tick in Hu. destruct Hu as [Hu Hfired].
  destruct (reached_awaited now ops u Hu Hst) as (t & Hti & Htar).
  pose proof (reached_timely now ops) as Hdue.
  rewrite Forall_forall in Hdue. specialize (Hdue t Hti).
  apply (Hfired t Hti); [lia|now symmetry].
Qed.

(** X8: on every page a run reaches, each Completed record has a timer
    waiting for it, so that no Completed record is left once 3000 ms or more
    have passed. *)
Theorem no_Completed_record_outlives_3000 (now : N) (ops : list Op) :
  awaited (fst (run ops (initial now)))
  /\ forall dt, (3000 <= dt)%N ->
       Forall (fun u => UploadItem.status u <> Completed)
         (uploads (tick dt (fst (run ops (initial now))))).
Proof.
  split.
  - apply reached_awaited.
  - intros dt Hdt. now apply reached_Completed_gone.
Qed.

(** X9: a record that no pending timer aims at stays through any time and
    any turns that neither remove nor complete it: nothing but
    [removeUpload] and the timer of [completeUpload] takes a record away. *)
Theorem record_without_timer_stays (w : World) (id : string) (ops : list Op) :
  contains id w ->
  (forall t, In t (timers w) -> target t <> id) ->
  forallb (fun o => negb (discards id o)) ops = true ->
  contains id (fst (run ops w)).
Proof.
  revert w. induction ops as [|o ops IH]; intros w Hin Htim Hops; [exact Hin|].
  rewrite run_cons. cbn [fst].
  cbn [forallb] in Hops. apply andb_true_iff in Hops. destruct Hops as [Ho Hops].
  apply negb_true_iff in Ho.
  pose proof (exec_timers o w) as Ht. pose proof (exec_contains id o w) as Hk.
  apply IH; [| |exact Hops].
  - apply Hk. destruct o as [t fileName fileSize|i p|i|i|i e|i|dt]; try tauto.
    + split; [exact Hin|]. cbn in Ho. now apply String.eqb_neq.
    + split; [exact Hin|]. intros t Hti _. now apply Htim.
  - rewrite Ht. destruct o as [t fileName fileSize|i p|i|i|i e|i|dt]; try exact Htim.
    + intros t Hti. apply in_app_iff in Hti.
      destruct Hti as [Hti | [<- | []]]; [now apply Htim|].
      cbn in *. now apply String.eqb_neq.
    + intros t Hti. apply filter_In in Hti. now apply Htim.
Qed.

Lemma record_without_timer_stays_witness :
  let w := page_after [call_updateProgress first_id 40;
                       call_failUpload first_id "Network error during upload"] in
  let ops := [pass 5000; call_startUpload 9 "b.txt" 20; call_completeUpload "upload-2-9";
              pass 86400000] in
  contains first_id w
  /\ (forall t, In t (timers w) -> target t <> first_id)
  /\ forallb (fun o => negb (discards first_id o)) ops = true
  /\ contains first_id (fst (run ops w))
  /\ map UploadItem.id (uploads (fst (run ops w))) = [first_id].
Proof.
  cbv zeta.
  assert (Hin : contains first_id
                  (page_after [call_updateProgress first_id 40;
                               call_failUpload first_id "Network error during upload"])).
  { eexists. split; [left; reflexivity|reflexivity]. }
  assert (Htim : forall t,
             In t (timers (page_after [call_updateProgress first_id 40;
                                       call_failUpload first_id
                                         "Network error during upload"])) ->
             target t <> first_id) by (intros t []).
  split; [exact Hin|]. split; [exact Htim|]. split; [reflexivity|].
  split; [|reflexivity].
  exact (record_without_timer_stays _ first_id
           [pass 5000; call_startUpload 9 "b.txt" 20; call_completeUpload "upload-2-9";
            pass 86400000] Hin Htim eq_refl).
Defined.

(** ** More outcomes of a request *)

Section MoreOutcomes.

Context {JsValue : Type} (JSON_parse : string -> option JsValue).

Variables (w : World) (Date_now : Z) (fileName : string) (fileSize : number).
Variables (uploadId : string) (st : World * Promise JsValue).
Variable evs : list XhrEvent.

Hypothesis started :
  apiMultipartRequestWithProgress JsValue Date_now fileName fileSize w = (uploadId, st).
Hypothesis in_flight : forallb sending evs = true.

(** X10: on a network [error] the record of the upload becomes Error with
    the message "Network error during upload", one alert with that message
    and severity error is raised, and the promise is rejected with an
    [Error] of that message. *)
Theorem network_error_outcome (w' : World) (p' : Promise JsValue) :
  dispatch JsValue JSON_parse uploadId (evs ++ [xhr_error]) st = (w', p') ->
  (exists u, lookup uploadId w' = Some u
             /\ UploadItem.status u = Error
             /\ UploadItem.error u = Some "Network error during upload"
             /\ UploadItem.fileName u = fileName
             /\ UploadItem.fileSize u = fileSize)
  /\ alerts w' = (alerts w ++ [("Network error during upload", "error")])%list
  /\ p' = Some (Rejected (new_Error "Network error during upload")).
Proof.
  intros Hrun. rewrite dispatch_snoc in Hrun.
  destruct (before_outcome JSON_parse w Date_now fileName fileSize uploadId st evs
              started in_flight) as ((u & Hu & Hn & Hz) & Ha & Hp).
  destruct (dispatch JsValue JSON_parse uploadId evs st) as [w0 p0].
  cbn in Hu, Ha, Hp. subst p0. cbn [listener] in Hrun.
  injection Hrun as <- <-. split; [|split].
  - change (exists u0,
              lookup uploadId (failUpload uploadId "Network error during upload" w0)
              = Some u0
              /\ UploadItem.status u0 = Error
              /\ UploadItem.error u0 = Some "Network error during upload"
              /\ UploadItem.fileName u0 = fileName
              /\ UploadItem.fileSize u0 = fileSize).
    rewrite lookup_failUpload, Hu. cbn. eexists. now repeat split.
  - cbn. now rewrite Ha.
  - reflexivity.
Qed.

(** X11: a response outside 200..299 with an empty body is reported as
    "Upload failed with status " followed by the status in decimal: that
    text is the record's error, the alert and the message of the rejection;
    different statuses give different texts. *)
Theorem empty_body_failure_outcome (status : Z) (w' : World) (p' : Promise JsValue) :
  (status < 200 \/ 300 <= status)%Z ->
  dispatch JsValue JSON_parse uploadId (evs ++ [xhr_load status ""]) st = (w', p') ->
  (exists u, lookup uploadId w' = Some u
             /\ UploadItem.status u = Error
             /\ UploadItem.error u
                = Some ("Upload failed with status " ++ Number_toString status))
  /\ alerts w'
     = (alerts w
        ++ [(("Upload failed with status " ++ Number_toString status)%string, "error")])%list
  /\ p' = Some (Rejected (new_Error ("Upload failed with status " ++ Number_toString status)))
  /\ forall status',
       "Upload failed with status " ++ Number_toString status'
       = "Upload failed with status " ++ Number_toString status ->
       status' = status.
Proof.
  intros Hstatus Hrun. rewrite dispatch_snoc in Hrun.
  destruct (before_outcome JSON_parse w Date_now fileName fileSize uploadId st evs
              started in_flight) as ((u & Hu & Hn & Hz) & Ha & Hp).
  destruct (dispatch JsValue JSON_parse uploadId evs st) as [w0 p0].
  cbn in Hu, Ha, Hp. subst p0. unfold listener in Hrun.
  assert (Hrange : ((200 <=? status) && (status <? 300))%Z = false).
  { apply andb_false_iff. destruct Hstatus; [left|right]; lia. }
  rewrite Hrange in Hrun. cbn [String.eqb] in Hrun.
  injection Hrun as <- <-. split; [|split; [|split]].
  - change (exists u0,
              lookup uploadId
                (failUpload uploadId
                   ("Upload failed with status " ++ Number_toString status) w0) = Some u0
              /\ UploadItem.status u0 = Error
              /\ UploadItem.error u0
                 = Some ("Upload failed with status " ++ Number_toString status)).
    rewrite lookup_failUpload, Hu. cbn. eexists. now repeat split.
  - cbn [addAlert alerts failUpload setUploads]. now rewrite Ha.
  - reflexivity.
  - intros status' Heq. cbn in Heq. injection Heq as Heq.
    now apply Number_toString_inj.
Qed.

End MoreOutcomes.

Section Settlement.

Context {JsValue : Type} (JSON_parse : string -> option JsValue).

Lemma listener_settled (id : string) (ev : XhrEvent) (w : World) (s : Settled JsValue) :
  snd (listener JsValue JSON_parse id ev (w, Some s)) = Some s.
Proof.
  destruct ev as [lc loaded total| |status body| |]; cbn; try reflexivity.
  - now destruct lc.
  - destruct ((200 <=? status) && (status <? 300))%Z; [|reflexivity].
    now destruct (JSON_parse body).
Qed.

Lemma dispatch_settled (id : string) (evs : list XhrEvent) (w : World)
    (s : Settled JsValue) :
  snd (dispatch JsValue JSON_parse id evs (w, Some s)) = Some s.
Proof.
  revert w. induction evs as [|ev evs IH]; intros w; [reflexivity|].
  change (dispatch JsValue JSON_parse id (ev :: evs) (w, Some s))
    with (dispatch JsValue JSON_parse id evs (listener JsValue JSON_parse id ev (w, Some s))).
  pose proof (listener_settled id ev w s) as H.
  destruct (listener JsValue JSON_parse id ev (w, Some s)) as [w1 p1]. cbn in H. subst p1.
  apply IH.
Qed.

Lemma listener_pending (id : string) (ev : XhrEvent) (w : World) :
  snd (listener JsValue JSON_parse id ev (w, None)) = None <-> sending ev = true.
Proof.
  destruct ev as [lc loaded total| |status body| |]; cbn.
  - destruct lc; tauto.
  - tauto.
  - destruct ((200 <=? status) && (status <? 300))%Z;
      [destruct (JSON_parse body)|]; cbn; split; discriminate.
  - split; discriminate.
  - split; discriminate.
Qed.

(** X12: the promise of a request is settled once.  It is still pending
    exactly when the end of the executor ([open], [setRequestHeader],
    [send]) did not throw and no outcome event ([load], [error], [abort])
    has been delivered; a throw at the end of the executor rejects it with
    what was thrown and leaves the page as it is; and once it is settled, by
    a throw or by an event, no later event changes it, whatever the events
    and their order. *)
Theorem promise_settles_once (id : string) (evs : list XhrEvent) (w : World)
    (threw : option JsError) :
  (snd (dispatch JsValue JSON_parse id evs (executor_end JsValue threw (w, None))) = None
   <-> threw = None /\ forallb sending evs = true)
  /\ (forall err,
        threw = Some err ->
        executor_end JsValue threw (w, None) = (w, Some (Rejected err))
        /\ snd (dispatch JsValue JSON_parse id evs (executor_end JsValue threw (w, None)))
           = Some (Rejected err))
  /\ (forall p more s,
        snd (dispatch JsValue JSON_parse id evs (w, p)) = Some s ->
        snd (dispatch JsValue JSON_parse id (evs ++ more) (w, p)) = Some s).
Proof.
  assert (Hpending : forall w0,
             snd (dispatch JsValue JSON_parse id evs (w0, None)) = None
             <-> forallb sending evs = true).
  { induction evs as [|ev evs' IH]; intros w0; [now cbn|].
    change (dispatch JsValue JSON_parse id (ev :: evs') (w0, None))
      with (dispatch JsValue JSON_parse id evs'
              (listener JsValue JSON_parse id ev (w0, None))).
    cbn [forallb]. rewrite andb_true_iff, <- (listener_pending id ev w0).
    destruct (listener JsValue JSON_parse id ev (w0, None)) as [w1 [s|]]; cbn [snd].
    - rewrite dispatch_settled. split; [discriminate|intros [H _]; discriminate H].
    - rewrite IH. tauto. }
  split; [|split].
  - destruct threw as [err|]; cbn [executor_end fst snd reject].
    + rewrite dispatch_settled. split; [discriminate|intros [H _]; discriminate H].
    + rewrite Hpending. split; [now split|tauto].
  - intros err ->. cbn [executor_end fst snd reject]. split; [reflexivity|].
    apply dispatch_settled.
  - intros p more s Hs. unfold dispatch in *. rewrite fold_left_app.
    fold (dispatch JsValue JSON_parse id evs (w, p)) in *.
    destruct (dispatch JsValue JSON_parse id evs (w, p)) as [w1 p1].
    cbn in Hs. subst p1. apply dispatch_settled.
Qed.

Lemma listener_alerts (id : string) (ev : XhrEvent) (w : World) (p : Promise JsValue) :
  exists l, alerts (fst (listener JsValue JSON_parse id ev (w, p))) = (alerts w ++ l)%list
            /\ List.length l = (if alerting ev then 1 else 0)%nat.
Proof.
  destruct ev as [lc loaded total| |status body| |]; cbn [listener alerting].
  - exists []. destruct lc; cbn; now rewrite app_nil_r.
  - exists []. cbn. now rewrite app_nil_r.
  - destruct ((200 <=? status) && (status <? 300))%Z; cbn [negb].
    + exists []. destruct (JSON_parse body); cbn; now rewrite app_nil_r.
    + eexists. cbn. split; reflexivity.
  - eexists. cbn. split; reflexivity.
  - exists []. cbn. now rewrite app_nil_r.
Qed.

Lemma ordered_alerting (k : nat) (evs : list XhrEvent) :
  ordered k evs = true ->
  (List.length (filter alerting evs) <= 1
   /\ (3 <= k -> evs = []))%nat.
Proof.
  revert k. induction evs as [|ev evs IH]; intros k Hord; [cbn; split; [lia|reflexivity]|].
  cbn in Hord. apply andb_true_iff in Hord. destruct Hord as [Hf Hord].
  destruct (IH _ Hord) as [Hlen Hlast]. split.
  - cbn. destruct (alerting ev) eqn:Ea; [|exact Hlen].
    assert (Hph : phase ev = 3) by (destruct ev; try discriminate Ea; reflexivity).
    rewrite Hph in Hlast. rewrite Hlast by lia. cbn. lia.
  - intros Hk. unfold follows in Hf.
    destruct ev; cbn in Hf;
      first [apply Nat.leb_le in Hf | apply Nat.ltb_lt in Hf]; lia.
Qed.

(** X13: the listeners only add alerts, one for each response outside
    200..299 and each network error and none for any other event; along the
    events of one request in the order of an [XMLHttpRequest] that is at most
    one alert. *)
Theorem alerts_only_grow (id : string) (evs : list XhrEvent) (w : World)
    (p : Promise JsValue) :
  (exists l,
      alerts (fst (dispatch JsValue JSON_parse id evs (w, p))) = (alerts w ++ l)%list
      /\ List.length l = List.length (filter alerting evs))
  /\ (ordered 0 evs = true -> (List.length (filter alerting evs) <= 1)%nat).
Proof.
  split; [|intros Hord; now apply (ordered_alerting 0)].
  revert w p. induction evs as [|ev evs IH]; intros w p.
  - exists []. cbn. now rewrite app_nil_r.
  - change (dispatch JsValue JSON_parse id (ev :: evs) (w, p))
      with (dispatch JsValue JSON_parse id evs (listener JsValue JSON_parse id ev (w, p))).
    destruct (listener_alerts id ev w p) as (l1 & Hl1 & Hn1).
    destruct (listener JsValue JSON_parse id ev (w, p)) as [w1 p1]. cbn [fst] in Hl1.
    destruct (IH w1 p1) as (l2 & Hl2 & Hn2).
    exists (l1 ++ l2)%list. rewrite Hl2, Hl1, <- app_assoc. split; [reflexivity|].
    rewrite length_app, Hn1, Hn2. cbn [filter]. now destruct (alerting ev).
Qed.

End Settlement.

(** ** Requests side by side *)

Lemma find_amend_other (id j : string) (f : UploadItem.t -> UploadItem.t)
    (l : list UploadItem.t) :
  j <> id ->
  (forall x, UploadItem.id (f x) = UploadItem.id x) ->
  find (fun x => UploadItem.id x =? id) (map (amend j f) l)
  = find (fun x => UploadItem.id x =? id) l.
Proof.
  intros Hne Hf. induction l as [|a l IH]; cbn; [reflexivity|].
  unfold amend at 1 2. destruct (UploadItem.id a =? j) eqn:E.
  - rewrite Hf. apply String.eqb_eq in E.
    assert (Ha : (UploadItem.id a =? id) = false) by (apply String.eqb_neq; congruence).
    now rewrite Ha.
  - now rewrite IH.
Qed.

Section SideBySide.

Context {JsValue : Type} (JSON_parse : string -> option JsValue).

Lemma listener_other (id j : string) (ev : XhrEvent) (w : World) (p : Promise JsValue) :
  j <> id ->
  lookup id (fst (listener JsValue JSON_parse j ev (w, p))) = lookup id w.
Proof.
  intros Hne.
  assert (H : forall f w0, (forall x, UploadItem.id (f x) = UploadItem.id x) ->
                find (fun x => UploadItem.id x =? id) (map (amend j f) (uploads w0))
                = lookup id w0)
    by (intros f w0 Hf; now apply find_amend_other).
  destruct ev as [lc loaded total| |status body| |]; cbn [listener].
  - destruct lc; [|reflexivity]. apply H; reflexivity.
  - apply H; reflexivity.
  - destruct ((200 <=? status) && (status <? 300))%Z.
    + destruct (JSON_parse body); apply (H _ w); reflexivity.
    + apply (H _ w); reflexivity.
  - apply (H _ w); reflexivity.
  - apply H; reflexivity.
Qed.

Lemma listener_same (id : string) (ev : XhrEvent) (w1 w2 : World) (p : Promise JsValue) :
  lookup id w1 = lookup id w2 ->
  lookup id (fst (listener JsValue JSON_parse id ev (w1, p)))
  = lookup id (fst (listener JsValue JSON_parse id ev (w2, p)))
  /\ snd (listener JsValue JSON_parse id ev (w1, p))
     = snd (listener JsValue JSON_parse id ev (w2, p)).
Proof.
  intros Hw.
  assert (H : forall f, (forall x, UploadItem.id (f x) = UploadItem.id x) ->
                find (fun x => UploadItem.id x =? id) (map (amend id f) (uploads w1))
                = find (fun x => UploadItem.id x =? id) (map (amend id f) (uploads w2))).
  { intros f Hf. rewrite !find_amend by exact Hf.
    unfold lookup in Hw. now rewrite Hw. }
  destruct ev as [lc loaded total| |status body| |]; cbn [listener].
  - destruct lc; split; try reflexivity; [apply H; reflexivity|exact Hw].
  - split; [apply H; reflexivity|reflexivity].
  - destruct ((200 <=? status) && (status <? 300))%Z.
    + destruct (JSON_parse body); (split; [apply H; reflexivity|reflexivity]).
    + split; [apply H; reflexivity|reflexivity].
  - split; [apply H; reflexivity|reflexivity].
  - split; [apply H; reflexivity|reflexivity].
Qed.

Lemma deliver_all_simulates (id : string) (es : list (string * XhrEvent)) :
  forall (w1 w2 : World) (ps : Promises JsValue),
    lookup id w1 = lookup id w2 ->
    lookup id (fst (deliver_all JsValue JSON_parse es (w1, ps)))
    = lookup id (fst (dispatch JsValue JSON_parse id (events_of id es) (w2, ps id)))
    /\ snd (deliver_all JsValue JSON_parse es (w1, ps)) id
       = snd (dispatch JsValue JSON_parse id (events_of id es) (w2, ps id)).
Proof.
  induction es as [|[j ev] es IH]; intros w1 w2 ps Hw; [now split|].
  change (deliver_all JsValue JSON_parse ((j, ev) :: es) (w1, ps))
    with (deliver_all JsValue JSON_parse es (deliver JsValue JSON_parse (j, ev) (w1, ps))).
  unfold deliver. cbn [fst snd].
  destruct (listener JsValue JSON_parse j ev (w1, ps j)) as [w1' p'] eqn:E.
  unfold events_of. cbn [filter fst].
  destruct (j =? id) eqn:Ej.
  - apply String.eqb_eq in Ej. subst j. cbn [map snd].
    change (dispatch JsValue JSON_parse id
              (ev :: map snd (filter (fun e => fst e =? id) es)) (w2, ps id))
      with (dispatch JsValue JSON_parse id (events_of id es)
              (listener JsValue JSON_parse id ev (w2, ps id))).
    destruct (listener_same id ev w1 w2 (ps id) Hw) as [Hl Hp].
    rewrite E in Hl, Hp. cbn [fst snd] in Hl, Hp.
    destruct (listener JsValue JSON_parse id ev (w2, ps id)) as [w2' p2].
    cbn [fst snd] in Hl, Hp. subst p2.
    specialize (IH w1' w2' (fun i => if i =? id then p' else ps i) Hl).
    cbn beta in IH. now rewrite String.eqb_refl in IH.
  - apply String.eqb_neq in Ej.
    pose proof (listener_other id j ev w1 (ps j) Ej) as Hl.
    rewrite E in Hl. cbn [fst] in Hl.
    assert (Hw' : lookup id w1' = lookup id w2) by congruence.
    specialize (IH w1' w2 (fun i => if i =? j then p' else ps i) Hw').
    cbn beta in IH.
    assert (Hij : (id =? j) = false) by (apply String.eqb_neq; congruence).
    now rewrite Hij in IH.
Qed.

(** X14: requests in flight do not touch each other: however the events of
    several requests are interleaved, the record and the promise of a
    request end as they do when its own events are delivered alone. *)
Theorem requests_do_not_interfere (id : string) (es : list (string * XhrEvent))
    (w : World) (ps : Promises JsValue) :
  lookup id (fst (deliver_all JsValue JSON_parse es (w, ps)))
  = lookup id (fst (dispatch JsValue JSON_parse id (events_of id es) (w, ps id)))
  /\ snd (deliver_all JsValue JSON_parse es (w, ps)) id
     = snd (dispatch JsValue JSON_parse id (events_of id es) (w, ps id)).
Proof.
  destruct (deliver_all_simulates id es w w ps eq_refl) as [Hrecord Hpromise].
  split; [exact Hrecord|exact Hpromise].
Qed.

End SideBySide.

(** ** Progress once the upload has ended *)

(** ** Numbers in binary64 *)

Section Binary64.

Local Open Scope Q_scope.

Lemma pow2_pos (k : Z) : 0 < 2 ^ k.
Proof. apply Qpower_0_lt. reflexivity. Qed.

Lemma pow2_plus (a b : Z) : 2 ^ (a + b) == 2 ^ a * 2 ^ b.
Proof. apply Qpower_plus. discriminate. Qed.

Lemma pow2_le (a b : Z) : (a <= b)%Z -> 2 ^ a <= 2 ^ b.
Proof. intros H. apply Qpower_le_compat_l; [exact H|discriminate]. Qed.

Lemma pow2_lt_inv (a b : Z) : 2 ^ a < 2 ^ b -> (a < b)%Z.
Proof. intros H. apply (Qpower_lt_compat_l_inv 2); [exact H|reflexivity]. Qed.

Lemma pow2_Z (n : Z) : (0 <= n)%Z -> inject_Z (2 ^ n) == 2 ^ n.
Proof. intros H. now apply Zpower_Qpower. Qed.

Lemma ilog2_spec (q : Q) : 0 < q -> 2 ^ ilog2 q <= q /\ q < 2 ^ (ilog2 q + 1).
Proof.
  intros Hq. destruct q as [n d].
  assert (Hn : (0 < n)%Z) by (unfold Qlt in Hq; cbn in Hq; lia).
  unfold ilog2. cbn [Qnum Qden].
  set (a := Z.log2 n). set (b := Z.log2 (Zpos d)).
  destruct (Z.log2_spec n Hn) as [Ha1 Ha2]. fold a in Ha1, Ha2.
  destruct (Z.log2_spec (Zpos d) eq_refl) as [Hb1 Hb2]. fold b in Hb1, Hb2.
  assert (Ha0 : (0 <= a)%Z) by apply Z.log2_nonneg.
  assert (Hb0 : (0 <= b)%Z) by apply Z.log2_nonneg.
  assert (Hqd : (n # d) * inject_Z (Zpos d) == inject_Z n).
  { unfold Qeq, Qmult, inject_Z. cbn. lia. }
  assert (HD : 0 < inject_Z (Zpos d)) by reflexivity.
  assert (HA1 : 2 ^ a <= inject_Z n) by (rewrite <- pow2_Z by lia; rewrite <- Zle_Qle; exact Ha1).
  assert (HA2 : inject_Z n < 2 ^ (a + 1))
    by (rewrite <- pow2_Z by lia; rewrite <- Zlt_Qlt; exact Ha2).
  assert (HB1 : 2 ^ b <= inject_Z (Zpos d))
    by (rewrite <- pow2_Z by lia; rewrite <- Zle_Qle; exact Hb1).
  assert (HB2 : inject_Z (Zpos d) < 2 ^ (b + 1))
    by (rewrite <- pow2_Z by lia; rewrite <- Zlt_Qlt; exact Hb2).
  assert (Hup : (n # d) < 2 ^ (a - b + 1)).
  { apply (Qmult_lt_r _ _ _ HD). rewrite Hqd.
    apply (Qlt_le_trans _ _ _ HA2).
    replace (a + 1)%Z with ((a - b + 1) + b)%Z by lia. rewrite pow2_plus.
    apply Qmult_le_l; [apply pow2_pos|exact HB1]. }
  assert (Hlow : 2 ^ (a - b - 1) < (n # d)).
  { apply (Qmult_lt_r _ _ _ HD). rewrite Hqd.
    apply (Qlt_le_trans _ (2 ^ a)); [|exact HA1].
    replace a with ((a - b - 1) + (b + 1))%Z at 2 by lia. rewrite pow2_plus.
    apply Qmult_lt_l; [apply pow2_pos|exact HB2]. }
  destruct (Qle_bool (2 ^ (a - b)) (n # d)) eqn:E.
  - apply Qle_bool_iff in E. split; assumption.
  - assert (Hlt : (n # d) < 2 ^ (a - b)).
    { apply Qnot_le_lt. intros H. apply Qle_bool_iff in H. congruence. }
    split; [apply Qlt_le_weak; exact Hlow|].
    replace (a - b - 1 + 1)%Z with (a - b)%Z by lia. exact Hlt.
Qed.

Lemma nearest_even_bounds (r : Q) :
  (Qfloor r <= nearest_even r <= Qfloor r + 1)%Z.
Proof.
  unfold nearest_even. destruct (r - inject_Z (Qfloor r) ?= 1 # 2); try lia.
  destruct (Z.even (Qfloor r)); lia.
Qed.

Lemma nearest_even_Z (k : Z) : nearest_even (inject_Z k) = k.
Proof.
  unfold nearest_even. rewrite Qfloor_Z.
  assert (H : (inject_Z k - inject_Z k ?= 1 # 2) = Lt).
  { apply Qlt_alt. unfold Qminus. rewrite Qplus_opp_r. reflexivity. }
  now rewrite H.
Qed.

Lemma nearest_even_mono (r s : Q) : r <= s -> (nearest_even r <= nearest_even s)%Z.
Proof.
  intros Hrs. pose proof (Qfloor_resp_le r s Hrs) as Hf.
  pose proof (nearest_even_bounds r) as Hr. pose proof (nearest_even_bounds s) as Hs.
  destruct (Z.eq_dec (Qfloor r) (Qfloor s)) as [Heq | Hne]; [|lia].
  unfold nearest_even in *. rewrite <- Heq in *.
  destruct (Qcompare_spec (r - inject_Z (Qfloor r)) (1 # 2)) as [H1 | H1 | H1];
    destruct (Qcompare_spec (s - inject_Z (Qfloor r)) (1 # 2)) as [H2 | H2 | H2];
    try lia; try (destruct (Z.even (Qfloor r)); lia); exfalso; lra.
Qed.

Lemma binary64_pos_bounds (q : Q) :
  0 < q -> 2 ^ ilog2 q <= binary64_pos q <= 2 ^ (ilog2 q + 1).
Proof.
  intros Hq. destruct (ilog2_spec q Hq) as [Hlo Hhi]. unfold binary64_pos.
  set (e := ilog2 q) in *.
  assert (E52 : inject_Z (2 ^ 52) == 2 ^ 52) by reflexivity.
  assert (E53 : inject_Z (2 ^ 53) == 2 ^ 53) by reflexivity.
  assert (Hs1 : inject_Z (2 ^ 52) <= q * 2 ^ (52 - e)).
  { rewrite E52. replace 52%Z with (e + (52 - e))%Z at 1 by lia.
    rewrite pow2_plus. apply Qmult_le_r; [apply pow2_pos|exact Hlo]. }
  assert (Hs2 : q * 2 ^ (52 - e) <= inject_Z (2 ^ 53)).
  { rewrite E53. replace 53%Z with ((e + 1) + (52 - e))%Z by lia.
    rewrite pow2_plus. apply Qmult_le_r; [apply pow2_pos|]. now apply Qlt_le_weak. }
  apply nearest_even_mono in Hs1, Hs2. rewrite nearest_even_Z in Hs1, Hs2.
  set (M := nearest_even (q * 2 ^ (52 - e))) in *.
  split.
  - replace e with (52 + (e - 52))%Z at 1 by lia. rewrite pow2_plus.
    apply Qmult_le_r; [apply pow2_pos|]. rewrite <- E52.
    now rewrite <- Zle_Qle.
  - replace (e + 1)%Z with (53 + (e - 52))%Z by lia. rewrite pow2_plus.
    apply Qmult_le_r; [apply pow2_pos|]. rewrite <- E53.
    now rewrite <- Zle_Qle.
Qed.

Lemma binary64_pos_mono (x y : Q) : 0 < x -> x <= y -> binary64_pos x <= binary64_pos y.
Proof.
  intros Hx Hxy. assert (Hy : 0 < y) by lra.
  destruct (ilog2_spec x Hx) as [Hxl Hxh]. destruct (ilog2_spec y Hy) as [Hyl Hyh].
  assert (Hexy : (ilog2 x <= ilog2 y)%Z).
  { assert (H : 2 ^ ilog2 x < 2 ^ (ilog2 y + 1)) by lra. apply pow2_lt_inv in H. lia. }
  destruct (Z.eq_dec (ilog2 x) (ilog2 y)) as [Heq | Hne].
  - unfold binary64_pos. rewrite Heq.
    apply Qmult_le_r; [apply pow2_pos|]. rewrite <- Zle_Qle.
    apply nearest_even_mono. apply Qmult_le_r; [apply pow2_pos|exact Hxy].
  - destruct (binary64_pos_bounds x Hx) as [_ Hbx].
    destruct (binary64_pos_bounds y Hy) as [Hby _].
    apply (Qle_trans _ _ _ Hbx). apply (Qle_trans _ (2 ^ ilog2 y)); [|exact Hby].
    apply pow2_le. lia.
Qed.

Lemma binary64_nonneg (x : Q) : 0 <= x -> 0 <= binary64 x.
Proof.
  intros Hx. unfold binary64. destruct x as [[|n|n] d]; cbn [Qnum].
  - lra.
  - assert (Hp : 0 < Zpos n # d) by reflexivity.
    destruct (binary64_pos_bounds _ Hp) as [H _].
    pose proof (pow2_pos (ilog2 (Zpos n # d))). lra.
  - exfalso. unfold Qle in Hx. cbn in Hx. lia.
Qed.

Lemma binary64_positive (x : Q) : 0 < x -> 0 < binary64 x.
Proof.
  intros Hx. unfold binary64. destruct x as [[|n|n] d]; cbn [Qnum].
  - exfalso. unfold Qlt in Hx. cbn in Hx. lia.
  - destruct (binary64_pos_bounds _ Hx) as [H _].
    pose proof (pow2_pos (ilog2 (Zpos n # d))). lra.
  - exfalso. unfold Qlt in Hx. cbn in Hx. lia.
Qed.

Lemma binary64_mono (x y : Q) : 0 <= x -> x <= y -> binary64 x <= binary64 y.
Proof.
  intros Hx Hxy. destruct x as [[|n|n] d].
  - apply binary64_nonneg. lra.
  - assert (Hp : 0 < Zpos n # d) by reflexivity.
    assert (Hy : 0 < y) by lra.
    unfold binary64 at 1. cbn [Qnum].
    destruct y as [[|m|m] d']; try (exfalso; unfold Qlt in Hy; cbn in Hy; lia).
    unfold binary64. cbn [Qnum]. now apply binary64_pos_mono.
  - exfalso. unfold Qle in Hx. cbn in Hx. lia.
Qed.

Lemma binary64_comp (x y : Q) : 0 <= x -> x == y -> binary64 x == binary64 y.
Proof.
  intros Hx Hxy. apply Qle_antisym; apply binary64_mono; lra.
Qed.

Lemma Math_round_mono (x y : Q) : x <= y -> Math_round x <= Math_round y.
Proof.
  intros H. unfold Math_round. rewrite <- Zle_Qle. apply Qfloor_resp_le. lra.
Qed.

Lemma percent_mono (a b total : Z) :
  (0 <= a <= b)%Z -> (0 < total)%Z -> 0 <= js_mul (js_div (to_number a) (to_number total)) 100 <= js_mul (js_div (to_number b) (to_number total)) 100.
Proof.
  intros Hab Ht.
  assert (HT : 0 < binary64 (inject_Z total)).
  { apply binary64_positive. change 0 with (inject_Z 0). rewrite <- Zlt_Qlt. exact Ht. }
  assert (Ha0 : 0 <= inject_Z a) by (change 0 with (inject_Z 0); rewrite <- Zle_Qle; lia).
  assert (HA : 0 <= binary64 (inject_Z a)) by now apply binary64_nonneg.
  assert (HAB : binary64 (inject_Z a) <= binary64 (inject_Z b)).
  { apply binary64_mono; [exact Ha0|]. rewrite <- Zle_Qle. lia. }
  assert (Hq0 : 0 <= binary64 (inject_Z a) / binary64 (inject_Z total)).
  { apply Qle_shift_div_l; [exact HT|]. lra. }
  assert (Hq : binary64 (inject_Z a) / binary64 (inject_Z total)
               <= binary64 (inject_Z b) / binary64 (inject_Z total)).
  { unfold Qdiv. apply Qmult_le_compat_r; [exact HAB|].
    apply Qlt_le_weak, Qinv_lt_0_compat, HT. }
  pose proof (binary64_nonneg _ Hq0) as Hb0.
  pose proof (binary64_mono _ _ Hq0 Hq) as Hb.
  unfold js_mul, js_div, to_number. split.
  - apply binary64_nonneg. lra.
  - apply binary64_mono; lra.
Qed.

Lemma binary64_exact (x v : Q) : 0 <= x -> x == v -> binary64 v == v -> binary64 x == v.
Proof.
  intros Hx Hxv Hv. apply (Qeq_trans _ (binary64 v)); [|exact Hv].
  now apply binary64_comp.
Qed.

Lemma percent_of_nothing (total : Z) : (0 < total)%Z -> js_mul (js_div (to_number 0) (to_number total)) 100 == 0.
Proof.
  intros Ht. unfold js_mul, js_div, to_number.
  assert (H1 : binary64 (binary64 (inject_Z 0) / binary64 (inject_Z total)) == 0).
  { change (binary64 (inject_Z 0)) with 0.
    apply binary64_exact; [unfold Qdiv; lra|unfold Qdiv; lra|reflexivity]. }
  apply binary64_exact; [rewrite H1; lra|rewrite H1; lra|reflexivity].
Qed.

Lemma percent_of_all (total : Z) : (0 < total)%Z -> js_mul (js_div (to_number total) (to_number total)) 100 == 100.
Proof.
  intros Ht. unfold js_mul, js_div, to_number.
  assert (HT : 0 < binary64 (inject_Z total)).
  { apply binary64_positive. change 0 with (inject_Z 0). rewrite <- Zlt_Qlt. exact Ht. }
  assert (H1 : binary64 (inject_Z total) / binary64 (inject_Z total) == 1).
  { unfold Qdiv. apply Qmult_inv_r. lra. }
  assert (H2 : binary64 (binary64 (inject_Z total) / binary64 (inject_Z total)) == 1).
  { apply binary64_exact; [rewrite H1; lra|exact H1|reflexivity]. }
  apply binary64_exact; [rewrite H2; lra|rewrite H2; lra|reflexivity].
Qed.

End Binary64.

Section Progress.

Context {JsValue : Type} (JSON_parse : string -> option JsValue).

(** X15: a progress event of [loaded] out of [total] bytes, with
    [0 <= loaded <= total] and [total] positive and below 2^64, stores a
    whole number of percent between 0 and 100, computed in binary64, and
    leaves the record Uploading: 0 when nothing is loaded, 100 when all is,
    and no less than what a progress event with fewer loaded bytes of the
    same total stores. *)
Theorem progress_event_percent (id : string) (w : World) (p : Promise JsValue)
    (u : UploadItem.t) (loaded total : Z) :
  lookup id w = Some u ->
  (0 <= loaded <= total)%Z ->
  (0 < total < 2 ^ 64)%Z ->
  exists n,
    lookup id (fst (listener JsValue JSON_parse id
                      (upload_progress true loaded total) (w, p)))
    = Some (UploadItem.mk (UploadItem.id u) (UploadItem.fileName u)
              (UploadItem.fileSize u) (inject_Z n) Uploading (UploadItem.error u))
    /\ (0 <= n <= 100)%Z
    /\ (loaded = 0%Z -> n = 0%Z)
    /\ (loaded = total -> n = 100%Z)
    /\ (forall fewer, (0 <= fewer <= loaded)%Z ->
          exists m,
            lookup id (fst (listener JsValue JSON_parse id
                              (upload_progress true fewer total) (w, p)))
            = Some (UploadItem.mk (UploadItem.id u) (UploadItem.fileName u)
                      (UploadItem.fileSize u) (inject_Z m) Uploading (UploadItem.error u))
            /\ (m <= n)%Z).
Proof.
  intros Hu Hl [Ht _].
  set (x := js_mul (js_div (to_number loaded) (to_number total)) 100).
  exists (Qfloor (x + (1 # 2))%Q).
  assert (Hx : (0 <= x <= 100)%Q).
  { destruct (percent_mono 0 loaded total) as [_ H0]; [lia|exact Ht|].
    destruct (percent_mono loaded total total) as [_ H100]; [lia|exact Ht|].
    rewrite (percent_of_nothing total Ht) in H0.
    rewrite (percent_of_all total Ht) in H100. now split. }
  split; [|split; [|split; [|split]]].
  - cbn [listener fst]. rewrite lookup_updateProgress, Hu. reflexivity.
  - destruct Hx as [H0 H100]. split.
    + change 0%Z with (Qfloor 0). apply Qfloor_resp_le.
      apply (Qle_trans _ (0 + (1 # 2))%Q); [discriminate|].
      apply Qplus_le_l. exact H0.
    + change 100%Z with (Qfloor (100 + (1 # 2))%Q). apply Qfloor_resp_le.
      apply Qplus_le_l. exact H100.
  - intros ->. subst x.
    assert (Heq : (js_mul (js_div (to_number 0) (to_number total)) 100 + (1 # 2)
                   == 0 + (1 # 2))%Q)
      by (now rewrite (percent_of_nothing total Ht)).
    now rewrite (Qfloor_comp _ _ Heq).
  - intros ->. subst x.
    assert (Heq : (js_mul (js_div (to_number total) (to_number total)) 100 + (1 # 2)
                   == 100 + (1 # 2))%Q)
      by (now rewrite (percent_of_all total Ht)).
    now rewrite (Qfloor_comp _ _ Heq).
  - intros fewer Hf. eexists. split.
    + cbn [listener fst]. rewrite lookup_updateProgress, Hu. reflexivity.
    + apply Qfloor_resp_le. apply Qplus_le_l.
      now apply (percent_mono fewer loaded total).
Qed.

Variables (w : World) (Date_now : Z) (fileName : string) (fileSize : number).
Variables (uploadId : string) (st : World * Promise JsValue).
Variable evs : list XhrEvent.

Hypothesis started :
  apiMultipartRequestWithProgress JsValue Date_now fileName fileSize w = (uploadId, st).
Hypothesis in_flight : forallb sending evs = true.

(** X16: once the upload has ended, the record of the request shows
    progress 100, and keeps it through the outcome, whichever it is. *)
Theorem progress_100_once_upload_ended (post : list XhrEvent) (w' : World)
    (p' : Promise JsValue) :
  ordered 2 post = true ->
  dispatch JsValue JSON_parse uploadId (evs ++ upload_load :: post) st = (w', p') ->
  exists u, lookup uploadId w' = Some u
            /\ UploadItem.progress u = 100%Q
            /\ (2 <= rank (UploadItem.status u))%nat.
Proof.
  intros Hord Hrun.
  destruct (before_outcome JSON_parse w Date_now fileName fileSize uploadId st evs
              started in_flight) as ((u & Hu & Hn & Hz) & Ha & Hp).
  unfold dispatch in Hrun. rewrite fold_left_app in Hrun.
  fold (dispatch JsValue JSON_parse uploadId evs st) in Hrun.
  destruct (dispatch JsValue JSON_parse uploadId evs st) as [w0 p0].
  cbn [fst] in Hu. cbn [fold_left] in Hrun.
  assert (Hup : lookup uploadId (setProcessing uploadId w0)
                = Some (UploadItem.mk (UploadItem.id u) (UploadItem.fileName u)
                          (UploadItem.fileSize u) 100 Processing (UploadItem.error u)))
    by (now rewrite lookup_setProcessing, Hu).
  cbn [listener] in Hrun.
  destruct post as [|ev post].
  - cbn in Hrun. injection Hrun as <- _. eexists. split; [exact Hup|]. cbn. split; [reflexivity|lia].
  - cbn [ordered] in Hord. apply andb_true_iff in Hord. destruct Hord as [Hf Hord].
    assert (Hph : phase ev = 3).
    { unfold follows in Hf. destruct ev; cbn in Hf |- *; try reflexivity;
        discriminate Hf. }
    rewrite Hph in Hord. apply ordered_alerting in Hord. destruct Hord as [_ Hnil].
    rewrite (Hnil (le_n 3)) in Hrun. cbn [fold_left] in Hrun.
    destruct ev as [lc loaded total| |status body| |]; try discriminate Hph;
      cbn [listener] in Hrun.
    + destruct ((200 <=? status) && (status <? 300))%Z.
      * assert (Hw' : w' = completeUpload uploadId (setProcessing uploadId w0))
          by (destruct (JSON_parse body); now injection Hrun as <- _).
        subst w'. rewrite lookup_completeUpload, Hup. cbn. eexists.
        split; [reflexivity|]. cbn. split; [reflexivity|lia].
      * injection Hrun as <- _.
        match goal with
        | |- context [addAlert ?m ?s (failUpload uploadId ?e ?w1)] =>
            change (lookup uploadId (addAlert m s (failUpload uploadId e w1)))
              with (lookup uploadId (failUpload uploadId e w1))
        end.
        rewrite lookup_failUpload, Hup. cbn. eexists.
        split; [reflexivity|]. cbn. split; [reflexivity|lia].
    + injection Hrun as <- _.
      match goal with
      | |- context [addAlert ?m ?s (failUpload uploadId ?e ?w1)] =>
          change (lookup uploadId (addAlert m s (failUpload uploadId e w1)))
            with (lookup uploadId (failUpload uploadId e w1))
      end.
      rewrite lookup_failUpload, Hup. cbn. eexists.
      split; [reflexivity|]. cbn. split; [reflexivity|lia].
    + injection Hrun as <- _. rewrite lookup_failUpload, Hup. cbn. eexists.
      split; [reflexivity|]. cbn. split; [reflexivity|lia].
Qed.

End Progress.

(** ** apiRequest and apiMultipartRequest *)

Section FetchFacts.

Context {JsValue : Type} (JSON_parse : string -> option JsValue).

(** X17: [apiRequest] throws exactly when [headers.append] throws for a
    truthy token, or [fetch] throws, or the response is not ok.  What
    [headers.append] throws leaves before the [try] block: the page is as
    it was, nothing is alerted.  What is thrown inside the [try] block (the
    error of [fetch], the error of reading the body, or an [Error] of the
    response text) is alerted once, with its message and severity error.  A
    call that returns raises no alert and returns the response, the parsed
    body or [undefined].  [apiMultipartRequest] does what [apiRequest] does
    without [return_response]. *)
Theorem api_failures_are_alerted (auth_token : option string)
    (append_threw : option JsError) (return_response : bool) (fetched : Fetched)
    (w : World) :
  match snd (apiRequest JsValue JSON_parse auth_token append_threw return_response
               fetched w) with
  | inl err =>
      (truthy auth_token = true
       /\ append_threw = Some err
       /\ fst (apiRequest JsValue JSON_parse auth_token append_threw return_response
                 fetched w) = w)
      \/ (thrown_before_try auth_token append_threw = None
          /\ fst (apiRequest JsValue JSON_parse auth_token append_threw return_response
                    fetched w)
             = addAlert (message err) "error" w
          /\ match fetched with
             | fetch_threw err' => err = err'
             | fetch_returned response =>
                 Response.ok response = false
                 /\ match Response.body response with
                    | inr text => err = new_Error text
                    | inl err' => err = err'
                    end
             end)
  | inr value =>
      thrown_before_try auth_token append_threw = None
      /\ fst (apiRequest JsValue JSON_parse auth_token append_threw return_response
                fetched w) = w
      /\ exists response,
           fetched = fetch_returned response
           /\ Response.ok response = true
           /\ value = (if return_response then the_response response
                       else match Response_json JsValue JSON_parse response with
                            | Some v => the_json v
                            | None => the_undefined
                            end)
  end
  /\ apiMultipartRequest JsValue JSON_parse auth_token append_threw fetched w
     = apiRequest JsValue JSON_parse auth_token append_threw false fetched w.
Proof.
  split.
  2: { unfold apiMultipartRequest, apiRequest.
       destruct (thrown_before_try auth_token append_threw); [reflexivity|].
       destruct fetched; reflexivity. }
  unfold apiRequest.
  destruct (thrown_before_try auth_token append_threw) as [err|] eqn:Hbefore.
  - cbn. left. unfold thrown_before_try in Hbefore.
    destruct (truthy auth_token); [|discriminate Hbefore]. now repeat split.
  - destruct fetched as [err|response]; cbn; [right; now repeat split|].
    destruct (Response.ok response) eqn:Hok; cbn.
    + destruct return_response; cbn.
      * split; [reflexivity|]. split; [reflexivity|]. exists response. now repeat split.
      * destruct (Response_json JsValue JSON_parse response) eqn:Hj; cbn;
          (split; [reflexivity|]); (split; [reflexivity|]);
          exists response; rewrite ?Hj; now repeat split.
    + destruct (Response.body response) as [err|text]; cbn; right; now repeat split.
Qed.

(** X18: for a response that is ok, or whose body is not empty,
    the request with progress settles its promise and raises its alerts as
    [apiMultipartRequest] does for the same status and body; for a response
    that is not ok and has an empty body the two differ:
    [apiMultipartRequest] reports the empty text, the request with progress
    names the status. *)
Theorem progress_variant_agrees_with_plain (id : string) (status : Z) (text : string)
    (auth_token : option string) (w wx : World) :
  let response := Response.mk status (inr text) in
  let plain :=
    apiMultipartRequest JsValue JSON_parse auth_token None (fetch_returned response) w in
  let tracked := listener JsValue JSON_parse id (xhr_load status text) (wx, None) in
  (Response.ok response = true \/ text <> "" ->
   settled_as JsValue (snd plain) = snd tracked
   /\ exists l, alerts (fst plain) = (alerts w ++ l)%list
                /\ alerts (fst tracked) = (alerts wx ++ l)%list)
  /\ (Response.ok response = false -> text = "" ->
      snd plain = inl (new_Error "")
      /\ snd tracked
         = Some (Rejected (new_Error ("Upload failed with status " ++ Number_toString status)))
      /\ settled_as JsValue (snd plain) <> snd tracked).
Proof.
  cbv zeta.
  assert (Hok : Response.ok (Response.mk status (inr text))
                = ((200 <=? status) && (status <? 300))%Z).
  { unfold Response.ok. cbn [Response.status].
    destruct (200 <=? status)%Z; [cbn|reflexivity].
    destruct (Z.leb_spec status 299), (Z.ltb_spec status 300); try reflexivity; lia. }
  assert (Hbefore : thrown_before_try auth_token None = None)
    by (unfold thrown_before_try; now destruct (truthy auth_token)).
  unfold apiMultipartRequest, Response_json. rewrite Hbefore.
  cbn [Response.body listener]. rewrite Hok. split.
  - intros Hcase. destruct ((200 <=? status) && (status <? 300))%Z; cbn [negb].
    + destruct (JSON_parse text); cbn; (split; [reflexivity|]);
        exists []; now rewrite !app_nil_r.
    + destruct Hcase as [Hc | Hc]; [discriminate Hc|].
      apply String.eqb_neq in Hc. rewrite Hc. cbn. split; [reflexivity|].
      eexists. split; reflexivity.
  - intros Hrange ->. rewrite Hrange. cbn. repeat split. discriminate.
Qed.

End FetchFacts.

(** ** What the panel shows *)


Lemma hasActiveUploads_spec (l : list UploadItem.t) :
  existsb (fun u => match UploadItem.status u with
                    | Pending | Uploading | Processing => true
                    | _ => false
                    end) l
  = negb (forallb close_button_shown l).
Proof.
  induction l as [|u l IH]; [reflexivity|]. cbn. rewrite IH.
  unfold close_button_shown. now destruct (UploadItem.status u).
Qed.

(** X20: [hasActiveUploads()] answers true exactly when some item of the
    panel has no close button; it answers true right after [startUpload],
    and false on a page without uploads. *)
Theorem hasActiveUploads_iff_some_item_cannot_be_closed (w : World) :
  hasActiveUploads w = negb (forallb close_button_shown (uploads w))
  /\ (hasActiveUploads w = true
      <-> exists u, In u (uploads w) /\ close_button_shown u = false)
  /\ (forall Date_now fileName fileSize,
        hasActiveUploads (snd (startUpload Date_now fileName fileSize w)) = true)
  /\ (uploads w = [] -> hasActiveUploads w = false).
Proof.
  assert (H : hasActiveUploads w = negb (forallb close_button_shown (uploads w)))
    by apply hasActiveUploads_spec.
  split; [exact H|]. split; [|split].
  - unfold hasActiveUploads. rewrite existsb_exists.
    split; intros (u & Hu & Hc); exists u; (split; [exact Hu|]);
      unfold close_button_shown in *; destruct (UploadItem.status u);
      cbn in *; congruence.
  - reflexivity.
  - unfold hasActiveUploads. now intros ->.
Qed.

(** X21: the panel is rendered exactly when the collection is not empty; on
    a page a run reaches where every upload is Completed, it is gone once
    3000 ms or more have passed. *)
Theorem panel_closes_after_last_completion (now : N) (ops : list Op) :
  (panel_shown (fst (run ops (initial now))) = false
   <-> uploads (fst (run ops (initial now))) = [])
  /\ (Forall (fun u => UploadItem.status u = Completed)
        (uploads (fst (run ops (initial now)))) ->
      forall dt, (3000 <= dt)%N ->
        panel_shown (tick dt (fst (run ops (initial now)))) = false).
Proof.
  split.
  - unfold panel_shown. destruct (uploads (fst (run ops (initial now)))); cbn;
      split; congruence.
  - intros Hall dt Hdt.
    pose proof (reached_Completed_gone now ops dt Hdt) as Hgone. unfold panel_shown.
    destruct (uploads (tick dt (fst (run ops (initial now))))) as [|u l] eqn:E;
      [reflexivity|].
    exfalso. inversion Hgone as [|x xs Hu _]; subst. apply Hu.
    assert (Hin : In u (uploads (tick dt (fst (run ops (initial now))))))
      by (rewrite E; now left).
    apply In_tick in Hin. destruct Hin as [Hin _].
    rewrite Forall_forall in Hall. now apply Hall.
Qed.

(** ** The added facts on sample pages *)

Lemma timers_due_within_3000_witness :
  let ops := [call_startUpload 0 "a.txt" 1000; call_completeUpload first_id; pass 1000] in
  (3000 <= 3000)%N
  /\ timers (fst (run ops (initial 0))) = [mkTimer 3000 first_id]
  /\ timers (tick 3000 (fst (run ops (initial 0)))) = [].
Proof.
  cbv zeta. split; [reflexivity|]. split; [reflexivity|].
  apply (proj2 (timers_due_within_3000 0
                  [call_startUpload 0 "a.txt" 1000; call_completeUpload first_id;
                   pass 1000])).
  reflexivity.
Defined.

Lemma no_Completed_record_outlives_3000_witness :
  let ops := [call_startUpload 0 "a.txt" 1000; call_startUpload 0 "b.txt" 20;
              call_completeUpload first_id; pass 2000;
              call_updateProgress "upload-2-0" 10] in
  (3000 <= 3000)%N
  /\ Forall (fun u => UploadItem.status u <> Completed)
       (uploads (tick 3000 (fst (run ops (initial 0)))))
  /\ map UploadItem.id (uploads (tick 3000 (fst (run ops (initial 0))))) = ["upload-2-0"].
Proof.
  cbv zeta. split; [reflexivity|]. split; [|reflexivity].
  apply (proj2 (no_Completed_record_outlives_3000 0
                  [call_startUpload 0 "a.txt" 1000; call_startUpload 0 "b.txt" 20;
                   call_completeUpload first_id; pass 2000;
                   call_updateProgress "upload-2-0" 10])).
  reflexivity.
Defined.

Lemma network_error_outcome_witness :
  let evs := [upload_progress true 300 1000] in
  let st := snd (apiMultipartRequestWithProgress string 0 "a.txt" 1000 (initial 0)) in
  let out := dispatch string sample_parse first_id (evs ++ [xhr_error]) st in
  apiMultipartRequestWithProgress string 0 "a.txt" 1000 (initial 0) = (first_id, st)
  /\ forallb sending evs = true
  /\ alerts (fst out) = [("Network error during upload", "error")]
  /\ snd out = Some (Rejected (new_Error "Network error during upload")).
Proof.
  cbv zeta. split; [reflexivity|]. split; [reflexivity|].
  destruct (network_error_outcome sample_parse (initial 0) 0 "a.txt" 1000 first_id _
              [upload_progress true 300 1000] eq_refl eq_refl _ _ (surjective_pairing _))
    as (_ & Ha & Hp).
  split; [exact Ha|exact Hp].
Defined.

Lemma empty_body_failure_outcome_witness :
  let evs := [upload_progress true 1000 1000; upload_load] in
  let st := snd (apiMultipartRequestWithProgress string 0 "a.txt" 1000 (initial 0)) in
  let out := dispatch string sample_parse first_id (evs ++ [xhr_load 413 ""]) st in
  apiMultipartRequestWithProgress string 0 "a.txt" 1000 (initial 0) = (first_id, st)
  /\ forallb sending evs = true
  /\ (413 < 200 \/ 300 <= 413)%Z
  /\ alerts (fst out) = [("Upload failed with status 413", "error")]
  /\ snd out = Some (Rejected (new_Error "Upload failed with status 413")).
Proof.
  cbv zeta.
  assert (H1 : (413 < 200 \/ 300 <= 413)%Z) by (right; lia).
  split; [reflexivity|]. split; [reflexivity|]. split; [exact H1|].
  destruct (empty_body_failure_outcome sample_parse (initial 0) 0 "a.txt" 1000 first_id _
              [upload_progress true 1000 1000; upload_load] eq_refl eq_refl
              413 _ _ H1 (surjective_pairing _))
    as (_ & Ha & Hp & _).
  split; [exact Ha|exact Hp].
Defined.

Lemma promise_settles_once_witness :
  let w := snd (startUpload 0 "a.txt" 1000 (initial 0)) in
  let evs := [upload_load; xhr_abort] in
  let bad := {| name := "SyntaxError"; message := "Invalid header value" |} in
  snd (dispatch string sample_parse first_id evs (w, None))
  = Some (Rejected (new_Error "Upload cancelled"))
  /\ snd (dispatch string sample_parse first_id (evs ++ [xhr_load 200 "{}"; xhr_error])
            (w, None))
     = Some (Rejected (new_Error "Upload cancelled"))
  /\ executor_end string (Some bad) (w, None) = (w, Some (Rejected bad))
  /\ option_map UploadItem.status (lookup first_id (fst (executor_end string (Some bad) (w, None))))
     = Some Pending
  /\ snd (dispatch string sample_parse first_id [xhr_load 200 "{}"]
            (executor_end string (Some bad) (w, None)))
     = Some (Rejected bad).
Proof.
  cbv zeta. split; [reflexivity|]. split.
  - apply (proj2 (proj2 (promise_settles_once sample_parse first_id [upload_load; xhr_abort]
                           (snd (startUpload 0 "a.txt" 1000 (initial 0))) None))).
    reflexivity.
  - destruct (proj1 (proj2 (promise_settles_once sample_parse first_id [xhr_load 200 "{}"]
                              (snd (startUpload 0 "a.txt" 1000 (initial 0)))
                              (Some {| name := "SyntaxError";
                                       message := "Invalid header value" |})))
                _ eq_refl) as [Hend Hrej].
    split; [exact Hend|]. split; [reflexivity|exact Hrej].
Defined.

Lemma alerts_only_grow_witness :
  let evs := [upload_progress true 10 1000; upload_load; xhr_load 500 "disk full"] in
  ordered 0 evs = true
  /\ (List.length (filter alerting evs) <= 1)%nat.
Proof.
  cbv zeta. split; [reflexivity|].
  apply (proj2 (alerts_only_grow sample_parse first_id
                  [upload_progress true 10 1000; upload_load; xhr_load 500 "disk full"]
                  (initial 0) None)).
  reflexivity.
Defined.

Lemma progress_event_percent_witness :
  let w := snd (startUpload 0 "a.txt" 1000 (initial 0)) in
  let u := UploadItem.mk first_id "a.txt" 1000 0 Pending None in
  let stored loaded total :=
    option_map UploadItem.progress
      (lookup first_id (fst (listener string sample_parse first_id
                               (upload_progress true loaded total) (w, None)))) in
  lookup first_id w = Some u
  /\ (0 <= 23 <= 40)%Z
  /\ (0 < 40 < 2 ^ 64)%Z
  /\ stored 23%Z 40%Z = Some 57%Q
  /\ stored 29%Z 200%Z = Some 14%Q
  /\ stored 1%Z 3%Z = Some 33%Q
  /\ stored 1%Z 8%Z = Some 13%Q
  /\ exists n,
       lookup first_id (fst (listener string sample_parse first_id
                               (upload_progress true 23 40) (w, None)))
       = Some (UploadItem.mk first_id "a.txt" 1000 (inject_Z n) Uploading None)
       /\ (0 <= n <= 100)%Z.
Proof.
  cbv zeta.
  assert (H1 : (0 <= 23 <= 40)%Z) by lia.
  assert (H2 : (0 < 40 < 2 ^ 64)%Z) by lia.
  split; [reflexivity|]. split; [exact H1|]. split; [exact H2|].
  split; [reflexivity|]. split; [reflexivity|]. split; [reflexivity|].
  split; [reflexivity|].
  destruct (progress_event_percent sample_parse first_id
              (snd (startUpload 0 "a.txt" 1000 (initial 0))) None
              (UploadItem.mk first_id "a.txt" 1000 0 Pending None) 23 40 eq_refl H1 H2)
    as (n & Hl & Hn & _).
  exists n. split; [exact Hl|exact Hn].
Defined.

Lemma progress_100_once_upload_ended_witness :
  let evs := [upload_progress true 999 1000] in
  let st := snd (apiMultipartRequestWithProgress string 0 "a.txt" 1000 (initial 0)) in
  let out := dispatch string sample_parse first_id (evs ++ [upload_load; xhr_abort]) st in
  apiMultipartRequestWithProgress string 0 "a.txt" 1000 (initial 0) = (first_id, st)
  /\ forallb sending evs = true
  /\ ordered 2 [xhr_abort] = true
  /\ exists u, lookup first_id (fst out) = Some u /\ UploadItem.progress u = 100%Q.
Proof.
  cbv zeta. split; [reflexivity|]. split; [reflexivity|]. split; [reflexivity|].
  destruct (progress_100_once_upload_ended sample_parse (initial 0) 0 "a.txt" 1000
              first_id _ [upload_progress true 999 1000] eq_refl eq_refl
              [xhr_abort] _ _ eq_refl (surjective_pairing _))
    as (u & Hu & Hp & _).
  exists u. split; [exact Hu|exact Hp].
Defined.

Lemma progress_variant_agrees_with_plain_witness :
  let response := Response.mk 500 (inr "disk full") in
  (Response.ok response = true \/ "disk full" <> "")
  /\ settled_as string
       (snd (apiMultipartRequest string sample_parse (Some "Bearer abc") None
               (fetch_returned response) (initial 0)))
     = snd (listener string sample_parse first_id (xhr_load 500 "disk full")
              (initial 0, None))
  /\ Response.ok (Response.mk 404 (inr "")) = false
  /\ snd (apiMultipartRequest string sample_parse (Some "Bearer abc") None
            (fetch_returned (Response.mk 404 (inr ""))) (initial 0))
     = inl (new_Error "").
Proof.
  cbv zeta.
  assert (H1 : Response.ok (Response.mk 500 (inr "disk full")) = true \/ "disk full" <> "")
    by (right; discriminate).
  split; [exact H1|].
  split.
  - apply (proj1 (progress_variant_agrees_with_plain sample_parse first_id 500 "disk full"
                    (Some "Bearer abc") (initial 0) (initial 0))).
    exact H1.
  - split; [reflexivity|].
    apply (proj2 (progress_variant_agrees_with_plain sample_parse first_id 404 ""
                    (Some "Bearer abc") (initial 0) (initial 0))); reflexivity.
Defined.

Lemma hasActiveUploads_iff_some_item_cannot_be_closed_witness :
  let w := page_after [call_failUpload first_id "boom"] in
  uploads (initial 0) = []
  /\ hasActiveUploads (initial 0) = false
  /\ hasActiveUploads w = false
  /\ hasActiveUploads (snd (startUpload 0 "b.txt" 20 w)) = true.
Proof.
  cbv zeta. split; [reflexivity|].
  destruct (hasActiveUploads_iff_some_item_cannot_be_closed (initial 0))
    as (_ & _ & _ & Hempty).
  split; [now apply Hempty|]. split; [reflexivity|].
  apply (hasActiveUploads_iff_some_item_cannot_be_closed
           (page_after [call_failUpload first_id "boom"])).
Defined.

Lemma panel_closes_after_last_completion_witness :
  let ops := [call_startUpload 0 "a.txt" 1000; call_startUpload 0 "b.txt" 20;
              call_completeUpload first_id; pass 2999;
              call_completeUpload "upload-2-0"] in
  Forall (fun u => UploadItem.status u = Completed) (uploads (fst (run ops (initial 0))))
  /\ (3000 <= 3000)%N
  /\ panel_shown (fst (run ops (initial 0))) = true
  /\ panel_shown (tick 3000 (fst (run ops (initial 0)))) = false.
Proof.
  cbv zeta.
  assert (Hall : Forall (fun u => UploadItem.status u = Completed)
                   (uploads (fst (run [call_startUpload 0 "a.txt" 1000;
                                       call_startUpload 0 "b.txt" 20;
                                       call_completeUpload first_id; pass 2999;
                                       call_completeUpload "upload-2-0"] (initial 0)))))
    by (repeat constructor).
  split; [exact Hall|]. split; [reflexivity|]. split; [reflexivity|].
  apply (proj2 (panel_closes_after_last_completion 0 _) Hall). reflexivity.
Defined.
